(** * DDBOT: the persistent state layer

    A verification development for the transaction coordinator of
    [lsp/buntdb] (RCoverTx / RWCoverTx over one embedded key-value engine)
    and for the bilibili state repository built on it
    ([lsp/bilibili/stateManager.go]).

    Go code is embedded as command trees ([prog]): pure computation stays
    in Rocq, every effect on the engine is a node of the tree, and the
    interpreter [run] threads the state of the engine and of the calling
    goroutine through it. *)

From Stdlib Require Import ZArith Ascii DecimalString DecimalZ.
From stdpp Require Import gmap strings list.

Open Scope Z_scope.

(** * Error values *)

(** Go's [error] values that occur in the two packages.  [ErrNil] is the
    nil error.  [ErrNotFound], [ErrTxNotWritable] and [ErrTxClosed] are the
    engine's ([buntdb.ErrNotFound] ...); [ErrNotInitialized],
    [ErrAlreadyInitialized] and [ErrRollback] belong to [lsp/buntdb];
    [ErrNew msg] is an error made by [errors.New msg] or handed up by the
    operating system. *)
Inductive error : Type :=
| ErrNil
| ErrNotFound
| ErrTxNotWritable
| ErrTxClosed
| ErrNotInitialized
| ErrAlreadyInitialized
| ErrRollback
| ErrNew (msg : string).

#[global] Instance error_eq_dec : EqDecision error.
Proof. solve_decision. Defined.

Definition is_nil (e : error) : bool :=
  match e with ErrNil => true | _ => false end.

(** Modelled from the spec: [IsRollback] of [lsp/buntdb] (section 6, the
    rollback signal is one designated value), as TestIsRollback checks it. *)
Definition IsRollback (e : error) : bool :=
  match e with ErrRollback => true | _ => false end.

(** * The engine *)

(** [buntdb.SetOptions]: [TTL] is a [time.Duration], in nanoseconds. *)
Record SetOptions := { Expires : bool; TTL : Z }.

Definition Nanosecond : Z := 1.
Definition Second : Z := 1000000000 * Nanosecond.
Definition Minute : Z := 60 * Second.
Definition Hour : Z := 60 * Minute.

(** Modelled from the spec: [ExpireOption] of [lsp/buntdb] (section 6, a
    TTL of zero means no expiry), as TestExpireOption checks it: nil for a
    zero duration, otherwise an expiring option with that TTL. *)
Definition ExpireOption (d : Z) : option SetOptions :=
  if d =? 0 then None else Some {| Expires := true; TTL := d |}.

(** A stored item: its value and, when it expires, the instant (in
    nanoseconds of the engine's clock) at which it does. *)
Record item := { ival : string; deadline : option Z }.

#[global] Instance item_eq_dec : EqDecision item.
Proof. solve_decision. Defined.

Abbreviation store := (gmap string item).

(** An open [buntdb.DB]: in-memory when [persist] is false. *)
Record DB := { persist : bool; items : store }.

(** Modelled from the spec: the process-wide state (sections 2 and 4.1):
    the package variable [db] of [lsp/buntdb] ([None] is Go's nil), the
    durable file, whether the disk refuses writes (section 7, persistence
    failure), and the clock.  [opened], [commits] and [rollbacks] are ghost
    counters: transactions begun, writable transactions committed, and
    writable transactions discarded. *)
Record engine := {
  db : option DB;
  disk : store;
  disk_fault : option string;
  now : Z;
  opened : nat;
  commits : nat;
  rollbacks : nat
}.

(** A transaction handle ([*buntdb.Tx]): its mode, what it sees, and
    whether it has written. *)
Record txn := { writable : bool; view : store; dirty : bool }.

(** What a goroutine works on: the engine and the transaction bound to
    its call chain, if any. *)
Record world := { eng : engine; cur : option txn }.

Definition idle (e : engine) : world := {| eng := e; cur := None |}.

Definition expired (t : Z) (it : item) : bool :=
  match deadline it with
  | Some d => d <=? t
  | None => false
  end.

(** The item under [k] as a reader sees it: expired items are gone. *)
Definition live (t : Z) (m : store) (k : string) : option item :=
  match m !! k with
  | Some it => if expired t it then None else Some it
  | None => None
  end.

Definition set_cur (w : world) (t : txn) : world :=
  {| eng := eng w; cur := Some t |}.

(** Modelled from the spec: the engine's [tx.Get] (sections 3, 6 and 7):
    the value, or [ErrNotFound] for a key that is absent or expired. *)
Definition tx_get (k : string) (w : world) : string * error :=
  match cur w with
  | None => (""%string, ErrTxClosed)
  | Some t =>
      match live (now (eng w)) (view t) k with
      | Some it => (ival it, ErrNil)
      | None => (""%string, ErrNotFound)
      end
  end.

Definition item_of (t : Z) (v : string) (opts : option SetOptions) : item :=
  {| ival := v;
     deadline := match opts with
                 | Some o => if Expires o then Some (t + TTL o) else None
                 | None => None
                 end |}.

(** Modelled from the spec: the engine's [tx.Set] (sections 6 and 7, and
    TestRTxCover): refused with [ErrTxNotWritable] on a read-only handle;
    otherwise the item is replaced, with its expiry when the options carry
    one, and the previous value reported. *)
Definition tx_set (k v : string) (opts : option SetOptions) (w : world)
  : (string * bool * error) * world :=
  match cur w with
  | None => ((""%string, false, ErrTxClosed), w)
  | Some t =>
      if writable t then
        let prev := live (now (eng w)) (view t) k in
        ((from_option ival ""%string prev, bool_decide (is_Some prev), ErrNil),
         set_cur w {| writable := true;
                      view := <[k := item_of (now (eng w)) v opts]> (view t);
                      dirty := true |})
      else ((""%string, false, ErrTxNotWritable), w)
  end.

(** Modelled from the spec: the engine's [tx.Delete] (section 7, NotFound
    on a missing key): refused on a read-only handle; [ErrNotFound] for a
    key that is absent or expired. *)
Definition tx_delete (k : string) (w : world) : (string * error) * world :=
  match cur w with
  | None => ((""%string, ErrTxClosed), w)
  | Some t =>
      if writable t then
        match view t !! k with
        | None => ((""%string, ErrNotFound), w)
        | Some it =>
            let w' := set_cur w {| writable := true;
                                   view := delete k (view t);
                                   dirty := true |} in
            if expired (now (eng w)) it
            then ((""%string, ErrNotFound), w')
            else ((ival it, ErrNil), w')
        end
      else ((""%string, ErrTxNotWritable), w)
  end.

(** Modelled from the spec: the engine's [tx.TTL] (section 6, and
    TestRWTxCover): the time left, negative for an item that does not
    expire. *)
Definition tx_ttl (k : string) (w : world) : Z * error :=
  match cur w with
  | None => (0, ErrTxClosed)
  | Some t =>
      match live (now (eng w)) (view t) k with
      | Some it =>
          match deadline it with
          | Some d => (d - now (eng w), ErrNil)
          | None => (-1, ErrNil)
          end
      | None => (0, ErrNotFound)
      end
  end.

(** * Go code as command trees *)

(** [TxGet], [TxSet], [TxDelete] and [TxTTL] are the methods of the
    transaction handle a callback is given; [UnixNow] is
    [time.Now().Unix()].  [Cover wr captured f] is a cover call
    ([RWCoverTx] when [wr], else [RCoverTx]) whose callback [f] is a
    closure: [captured] is the value of the variables the closure assigns
    when the call is made, and [f] yields their value when it returns
    together with its own return value. *)
Inductive prog : Type -> Type :=
| Ret {A : Type} (a : A) : prog A
| Bind {A B : Type} (m : prog A) (k : A -> prog B) : prog B
| TxGet (key : string) : prog (string * error)
| TxSet (key val : string) (opts : option SetOptions)
    : prog (string * bool * error)
| TxDelete (key : string) : prog (string * error)
| TxTTL (key : string) : prog (Z * error)
| UnixNow : prog Z
| Cover {A : Type} (wr : bool) (captured : A) (f : prog (A * error))
    : prog (A * error).

Notation "x <- m ;; k" := (Bind m (fun x => k))
  (at level 100, m at next level, right associativity).

(** ** The transaction coordinator *)

(** Modelled from the spec: the start of the outermost cover call (section
    4.2, "open a new read-only / read-write transaction"); the
    implementation of [lsp/buntdb] is not part of the sources at hand. *)
Definition begin (wr : bool) (d : DB) (e : engine) : world :=
  {| eng := {| db := db e; disk := disk e; disk_fault := disk_fault e;
               now := now e; opened := S (opened e);
               commits := commits e; rollbacks := rollbacks e |};
     cur := Some {| writable := wr; view := items d; dirty := false |} |}.

(** A writable transaction is dropped: the store stays as it was. *)
Definition discard (e : engine) : engine :=
  {| db := db e; disk := disk e; disk_fault := disk_fault e; now := now e;
     opened := opened e; commits := commits e;
     rollbacks := S (rollbacks e) |}.

(** A writable transaction is committed: what it saw becomes the store,
    and the durable file when there is one. *)
Definition install (d : DB) (t : txn) (e : engine) : engine :=
  {| db := Some {| persist := persist d; items := view t |};
     disk := if persist d then view t else disk e;
     disk_fault := disk_fault e; now := now e;
     opened := opened e; commits := S (commits e);
     rollbacks := rollbacks e |}.

(** Modelled from the spec: the commit step of the engine (sections 4.2 and
    7): a persistence failure shows only here, after the callback has
    returned, and leaves nothing of the transaction behind. *)
Definition commit (d : DB) (t : txn) (e : engine) : error * engine :=
  match disk_fault e with
  | Some msg =>
      if persist d && dirty t then (ErrNew msg, discard e)
      else (ErrNil, install d t e)
  | None => (ErrNil, install d t e)
  end.

(** Modelled from the spec: the end of the outermost cover call (section
    4.2): a read-only transaction is let go; a read-write one is committed
    when the callback returned nil and rolled back otherwise, and the
    callback's error is returned as it is. *)
Definition finish (d : DB) (fn_err : error) (w : world) : error * world :=
  match cur w with
  | Some t =>
      if writable t then
        if is_nil fn_err then
          let '(e, g) := commit d t (eng w) in (e, idle g)
        else (fn_err, idle (discard (eng w)))
      else (fn_err, idle (eng w))
  | None => (fn_err, idle (eng w))
  end.

(** Modelled from the spec: [RCoverTx] and [RWCoverTx] of [lsp/buntdb]
    (section 4.2, withRead / withReadWrite), as the [Cover] case: a call
    within an open transaction of the chain runs its callback on that
    transaction, except that a write scope within a read-only one fails
    with NotWritable at once; a call on a chain without a transaction needs
    the engine (NotInitialized otherwise, section 7), opens a transaction,
    runs the callback and finishes. *)
Fixpoint run {A : Type} (p : prog A) (w : world) : A * world :=
  match p in prog T return T * world with
  | Ret a => (a, w)
  | Bind m k => let '(a, w1) := run m w in run (k a) w1
  | TxGet key => (tx_get key w, w)
  | TxSet key val opts => tx_set key val opts w
  | TxDelete key => tx_delete key w
  | TxTTL key => (tx_ttl key w, w)
  | UnixNow => (now (eng w) / Second, w)
  | Cover wr captured f =>
      match cur w with
      | Some t =>
          if wr && negb (writable t)
          then ((captured, ErrTxNotWritable), w)
          else run f w
      | None =>
          match db (eng w) with
          | None => ((captured, ErrNotInitialized), w)
          | Some d =>
              let '((a, fn_err), w1) := run f (begin wr d (eng w)) in
              let '(e, w2) := finish d fn_err w1 in
              ((a, e), w2)
          end
      end
  end.

(** A callback that assigns no variable of its caller. *)
Definition plain (f : prog error) : prog (unit * error) :=
  e <- f ;; Ret (tt, e).

(** Modelled from the spec: [RWCoverTx] (section 4.2, withReadWrite), the
    [Cover] case of [run] in write mode. *)
Definition RWCoverTx (f : prog error) : prog error :=
  r <- Cover true tt (plain f) ;; Ret (snd r).

(** Modelled from the spec: [RCoverTx] (section 4.2, withRead), the [Cover]
    case of [run] in read mode. *)
Definition RCoverTx (f : prog error) : prog error :=
  r <- Cover false tt (plain f) ;; Ret (snd r).

(** ** Life cycle of the engine handle *)

Definition MEMORYDB : string := ":memory:".

Definition with_db (o : option DB) (e : engine) : engine :=
  {| db := o; disk := disk e; disk_fault := disk_fault e; now := now e;
     opened := opened e; commits := commits e; rollbacks := rollbacks e |}.

(** Modelled from the spec: [InitBuntDB] (section 4.1, init): ready, or
    AlreadyInitialized when called twice; the target is the in-memory mode
    or a durable path.  The function is not part of the sources at hand. *)
Definition InitBuntDB (target : string) (e : engine) : error * engine :=
  match db e with
  | Some _ => (ErrAlreadyInitialized, e)
  | None =>
      if String.eqb target MEMORYDB
      then (ErrNil, with_db (Some {| persist := false; items := ∅ |}) e)
      else (ErrNil, with_db (Some {| persist := true; items := disk e |}) e)
  end.

(** Modelled from the spec: [GetClient] (section 4.1, client): the current
    handle, or NotInitialized. *)
Definition GetClient (e : engine) : option DB * error :=
  match db e with
  | Some d => (Some d, ErrNil)
  | None => (None, ErrNotInitialized)
  end.

(** Modelled from the spec: [Close] (section 4.1, close): idempotent
    teardown. *)
Definition Close (e : engine) : error * engine := (ErrNil, with_db None e).

(** * Key names *)

Inductive int_type : Type :=
| Int | Int8 | Int16 | Int32 | Int64
| Uint | Uint8 | Uint16 | Uint32 | Uint64.

(** An identifier segment: a Go value of one of the types a key is made
    of.  An integer carries its Go type and its value. *)
Inductive segment : Type :=
| SegString (s : string)
| SegInt (ty : int_type) (z : Z)
| SegBool (b : bool).

(** [strconv.FormatInt z 10] and [strconv.FormatUint z 10]. *)
Definition FormatInt (z : Z) : string := NilZero.string_of_int (Z.to_int z).

(** [strconv.ParseInt s 10 64], for the strings [FormatInt] writes. *)
Definition ParseInt (s : string) : option Z :=
  match NilZero.int_of_string s with
  | Some d => Some (Z.of_int d)
  | None => None
  end.

Definition FormatBool (b : bool) : string :=
  if b then "true"%string else "false"%string.

Definition segment_text (k : segment) : string :=
  match k with
  | SegString s => s
  | SegInt _ z => FormatInt z
  | SegBool b => FormatBool b
  end.

(** [strings.Join]. *)
Fixpoint Join (elems : list string) (sep : string) : string :=
  match elems with
  | [] => ""%string
  | [s] => s
  | s :: rest => (s ++ sep ++ Join rest sep)%string
  end.

(** Modelled from the spec: [NamedKey] (sections 4.3 and 6): the tag, then
    each segment in its natural textual form, joined with a colon.  The
    function is not part of the sources at hand; TestNamedKey is. *)
Definition NamedKey (name : string) (keys : list segment) : string :=
  Join (name :: map segment_text keys) ":".

(** The same key written the way the spec spells the format:
    [<tag>:<segment1>:<segment2>:...]. *)
Definition key_format (name : string) (keys : list segment) : string :=
  fold_left (fun acc k => (acc ++ ":" ++ segment_text k)%string) keys name.

(** * 64-bit integers *)

Definition wrap64 (z : Z) : Z :=
  (z + 2 ^ 63) mod 2 ^ 64 - 2 ^ 63.

(** * Shortcuts of [lsp/buntdb] used by the repository *)

(** Modelled from the spec: [SeqNext] (section 4.6, increment): one
    read-write scope that bumps the integer stored under the key (absent
    counts as 0) and returns the new value.  The function is not part of
    the sources at hand. *)
Definition SeqNext (key : string) : prog (Z * error) :=
  Cover true 0 (
    r <- TxGet key ;;
    let '(oldV, err) := r in
    match err with
    | ErrNil | ErrNotFound =>
        match ParseInt (if is_nil err then oldV else "0"%string) with
        | Some old =>
            let result := wrap64 (old + 1) in
            s <- TxSet key (FormatInt result) None ;;
            Ret (result, snd s)
        | None => Ret (0, ErrNew "invalid syntax")
        end
    | _ => Ret (0, err)
    end).

(** Reading one key in a read scope, the way the tests look at the store. *)
Definition read (key : string) : prog (string * error) :=
  Cover false ""%string (TxGet key).

Definition read_ttl (key : string) : prog (Z * error) :=
  Cover false 0 (TxTTL key).

(** * The bilibili state repository ([lsp/bilibili/stateManager.go]) *)

(** The key builders of [extraKey] and of the concern's key set are
    declared in files that are not at hand: the repository is
    parameterised by them. *)
Class KeySet := {
  UserInfoKey : Z -> string;
  UserStatKey : Z -> string;
  CurrentLiveKey : Z -> string;
  CurrentNewsKey : Z -> string;
  DynamicIdKey : Z -> string;
  NotLiveKey : Z -> string;
  UidFirstTimestamp : Z -> string;
  BilibiliUserCookieInfoKey : string -> string
}.

(** So are the record types with their [ToString] and the JSON encoder.
    [LiveInfo] and [NewsInfo] embed a [UserInfo]: their [Mid] is its. *)
Class Records := {
  UserInfo : Type;
  UserInfo_Mid : UserInfo -> Z;
  UserInfo_ToString : UserInfo -> string;
  UserStat : Type;
  UserStat_Mid : UserStat -> Z;
  UserStat_ToString : UserStat -> string;
  LiveInfo : Type;
  LiveInfo_UserInfo : LiveInfo -> UserInfo;
  LiveInfo_ToString : LiveInfo -> string;
  NewsInfo : Type;
  NewsInfo_UserInfo : NewsInfo -> UserInfo;
  NewsInfo_ToString : NewsInfo -> string;
  CookieInfo : Type;
  Cookie : Type;
  json_Marshal : CookieInfo -> string * error;
  GetCookies : CookieInfo -> list Cookie;
  GetExpires : Cookie -> Z
}.

Section StateManager.

Context {K : KeySet} {R : Records}.

(** A pointer argument is an [option]: [None] is nil. *)
Definition AddUserInfo (userInfo : option UserInfo) : prog error :=
  match userInfo with
  | None => Ret (ErrNew "nil UserInfo")
  | Some u =>
      RWCoverTx (
        let key := UserInfoKey (UserInfo_Mid u) in
        r <- TxSet key (UserInfo_ToString u) None ;;
        Ret (snd r))
  end.

Definition AddUserStat (userStat : option UserStat)
    (opt : option SetOptions) : prog error :=
  match userStat with
  | None => Ret (ErrNew "nil UserStat")
  | Some u =>
      RWCoverTx (
        r <- TxSet (UserStatKey (UserStat_Mid u)) (UserStat_ToString u) opt ;;
        Ret (snd r))
  end.

Definition AddLiveInfo (liveInfo : option LiveInfo) : prog error :=
  match liveInfo with
  | None => Ret (ErrNew "nil LiveInfo")
  | Some l =>
      let Mid := UserInfo_Mid (LiveInfo_UserInfo l) in
      err <- RWCoverTx (
        r <- TxSet (UserInfoKey Mid)
               (UserInfo_ToString (LiveInfo_UserInfo l)) None ;;
        if negb (is_nil (snd r)) then Ret (snd r)
        else
          r <- TxSet (CurrentLiveKey Mid) (LiveInfo_ToString l)
                 (ExpireOption (Hour * 24 * 7)) ;;
          Ret (snd r)) ;;
      Ret err
  end.

Definition AddNewsInfo (newsInfo : option NewsInfo) : prog error :=
  match newsInfo with
  | None => Ret (ErrNew "nil NewsInfo")
  | Some n =>
      let Mid := UserInfo_Mid (NewsInfo_UserInfo n) in
      RWCoverTx (
        r <- TxSet (UserInfoKey Mid)
               (UserInfo_ToString (NewsInfo_UserInfo n)) None ;;
        if negb (is_nil (snd r)) then Ret (snd r)
        else
          r <- TxSet (CurrentNewsKey Mid) (NewsInfo_ToString n) None ;;
          Ret (snd r))
  end.

Definition DeleteNewsInfo (mid : Z) : prog error :=
  RWCoverTx (r <- TxDelete (CurrentNewsKey mid) ;; Ret (snd r)).

Definition DeleteLiveInfo (mid : Z) : prog error :=
  RWCoverTx (r <- TxDelete (CurrentLiveKey mid) ;; Ret (snd r)).

Definition DeleteNewsAndLiveInfo (mid : Z) : prog error :=
  RWCoverTx (
    r <- TxDelete (CurrentLiveKey mid) ;;
    let err := snd r in
    if negb (is_nil err) && negb (bool_decide (err = ErrNotFound))
    then Ret err
    else
      r <- TxDelete (CurrentNewsKey mid) ;;
      Ret (snd r)).

(** The closing loop of [ClearByMid]: the first collected error that is
    neither nil nor [ErrNotFound], nil when there is none. *)
Fixpoint first_failure (errs : list error) : error :=
  match errs with
  | [] => ErrNil
  | e :: rest =>
      if negb (is_nil e) && negb (bool_decide (e = ErrNotFound))
      then e
      else first_failure rest
  end.

Definition ClearByMid (mid : Z) : prog error :=
  RWCoverTx (
    let errs : list error := [] in
    r <- TxDelete (CurrentLiveKey mid) ;;
    let errs := errs ++ [snd r] in
    r <- TxDelete (CurrentNewsKey mid) ;;
    let errs := errs ++ [snd r] in
    r <- TxDelete (UidFirstTimestamp mid) ;;
    let errs := errs ++ [snd r] in
    r <- TxDelete (UserInfoKey mid) ;;
    let errs := errs ++ [snd r] in
    r <- TxDelete (NotLiveKey mid) ;;
    let errs := errs ++ [snd r] in
    Ret (first_failure errs)).

(** The callback assigns the named result [result], false at the call. *)
Definition CheckDynamicId (dynamic : Z) : prog bool :=
  let result := false in
  c <- Cover false result (
    let key := DynamicIdKey dynamic in
    r <- TxGet key ;;
    let err := snd r in
    match err with
    | ErrNil => Ret (false, ErrNil)
    | ErrNotFound => Ret (true, ErrNil)
    | _ => Ret (result, err)
    end) ;;
  let '(result, err) := c in
  Ret (if negb (is_nil err) then false else result).

(** The callback assigns the named result [replaced]. *)
Definition MarkDynamicId (dynamic : Z) : prog (bool * error) :=
  Cover true false (
    let key := DynamicIdKey dynamic in
    r <- TxSet key ""%string (ExpireOption (Hour * 120)) ;;
    let '(_, replaced, err) := r in
    Ret (replaced, err)).

Definition IncNotLiveCount (uid : Z) : prog Z :=
  r <- SeqNext (NotLiveKey uid) ;;
  let '(result, err) := r in
  Ret (if negb (is_nil err) then 0 else result).

Definition UnsetUidFirstTimestamp (uid : Z) : prog error :=
  RWCoverTx (
    let key := UidFirstTimestamp uid in
    r <- TxDelete key ;;
    Ret (snd r)).

Definition SetCookieInfo (username : string)
    (cookieInfo : option CookieInfo) : prog error :=
  match cookieInfo with
  | None => Ret (ErrNew "<nil> cookieInfo")
  | Some c =>
      RWCoverTx (
        let key := BilibiliUserCookieInfoKey username in
        let '(cookieData, err) := json_Marshal c in
        if negb (is_nil err) then Ret err
        else
          let expire :=
            match GetCookies c with
            | cookie :: _ => GetExpires cookie
            | [] => 0
            end in
          if negb (expire =? 0) then
            t <- UnixNow ;;
            r <- TxSet key cookieData
                   (ExpireOption (wrap64 (wrap64 (expire - t) * Second))) ;;
            Ret (snd r)
          else
            r <- TxSet key cookieData None ;;
            Ret (snd r))
  end.

(** The keys [ClearByMid] deletes, in its order. *)
Definition cleared (mid : Z) : list string :=
  [CurrentLiveKey mid; CurrentNewsKey mid; UidFirstTimestamp mid;
   UserInfoKey mid; NotLiveKey mid].

(** What the callback of [AddLiveInfo] leaves in a store at time [t]. *)
Definition live_records (l : LiveInfo) (t : Z) (m : store) : store :=
  <[CurrentLiveKey (UserInfo_Mid (LiveInfo_UserInfo l)) :=
      {| ival := LiveInfo_ToString l; deadline := Some (t + Hour * 24 * 7) |}]>
    (<[UserInfoKey (UserInfo_Mid (LiveInfo_UserInfo l)) :=
         {| ival := UserInfo_ToString (LiveInfo_UserInfo l);
            deadline := None |}]> m).

End StateManager.

(** * Nested calls *)

(** A callback that sets the given keys in order and stops at the first
    error, as the callbacks of TestNestedCover do. *)
Fixpoint writes (ws : list (string * string)) : prog error :=
  match ws with
  | [] => Ret ErrNil
  | (k, v) :: rest =>
      r <- TxSet k v None ;;
      if negb (is_nil (snd r)) then Ret (snd r) else writes rest
  end.

(** A chain of nested callbacks: each level makes its own writes, calls
    the next level through [RWCoverTx] and returns what that call
    returned; the innermost callback returns [last]. *)
Fixpoint chain (levels : list (list (string * string))) (last : error)
  : prog error :=
  match levels with
  | [] => Ret last
  | ws :: rest =>
      err <- writes ws ;;
      if negb (is_nil err) then Ret err else RWCoverTx (chain rest last)
  end.

(** What the writes of a callback, or of a whole chain, leave in a store. *)
Definition put (t : Z) (m : store) (kv : string * string) : store :=
  <[kv.1 := item_of t kv.2 None]> m.

Definition written (t : Z) (ws : list (string * string)) (m : store) : store :=
  fold_left (put t) ws m.

(** An outer callback that writes, lets a nested callback ask for a
    rollback, and does not pass the answer on. *)
Definition swallow : prog error :=
  RWCoverTx (
    _ <- TxSet "a" "b" None ;;
    _ <- RWCoverTx (_ <- TxSet "c" "d" None ;; Ret ErrRollback) ;;
    Ret ErrNil).

(** A freshly initialised in-memory engine at time [t]. *)
Definition fresh (t : Z) : engine :=
  {| db := Some {| persist := false; items := ∅ |}; disk := ∅;
     disk_fault := None; now := t; opened := 0; commits := 0;
     rollbacks := 0 |}.

(** The process before [InitBuntDB]. *)
Definition boot (t : Z) : engine :=
  {| db := None; disk := ∅; disk_fault := None; now := t; opened := 0;
     commits := 0; rollbacks := 0 |}.

(** What the store holds under a key, for a chain without a transaction. *)
Definition stored (e : engine) (k : string) : option item :=
  match db e with
  | Some d => live (now e) (items d) k
  | None => None
  end.

(** ** Sample parameters *)

(** A key set in the format of [NamedKey]. *)
Definition sample_keys : KeySet :=
  {| UserInfoKey := fun mid => NamedKey "UserInfo" [SegInt Int64 mid];
     UserStatKey := fun mid => NamedKey "UserStat" [SegInt Int64 mid];
     CurrentLiveKey := fun mid => NamedKey "CurrentLive" [SegInt Int64 mid];
     CurrentNewsKey := fun mid => NamedKey "CurrentNews" [SegInt Int64 mid];
     DynamicIdKey := fun id => NamedKey "DynamicId" [SegInt Int64 id];
     NotLiveKey := fun mid => NamedKey "NotLive" [SegInt Int64 mid];
     UidFirstTimestamp :=
       fun mid => NamedKey "UidFirstTimestamp" [SegInt Int64 mid];
     BilibiliUserCookieInfoKey :=
       fun name => NamedKey "bilibiliUserCookieInfo" [SegString name] |}.

(** Records reduced to a producer id and a title; the text of a record is
    its key-format rendering. *)
Definition sample_records : Records :=
  {| UserInfo := Z * string;
     UserInfo_Mid := fst;
     UserInfo_ToString :=
       fun u => NamedKey "user" [SegInt Int64 u.1; SegString u.2];
     UserStat := Z * Z;
     UserStat_Mid := fst;
     UserStat_ToString :=
       fun u => NamedKey "stat" [SegInt Int64 u.1; SegInt Int64 u.2];
     LiveInfo := (Z * string) * string;
     LiveInfo_UserInfo := fst;
     LiveInfo_ToString :=
       fun l => NamedKey "live"
                  [SegInt Int64 l.1.1; SegString l.1.2; SegString l.2];
     NewsInfo := (Z * string) * string;
     NewsInfo_UserInfo := fst;
     NewsInfo_ToString :=
       fun n => NamedKey "news"
                  [SegInt Int64 n.1.1; SegString n.1.2; SegString n.2];
     CookieInfo := list Z;
     Cookie := Z;
     json_Marshal := fun c => (Join (map FormatInt c) ",", ErrNil);
     GetCookies := fun c => c;
     GetExpires := fun c => c |}.

(** The engine of [fresh] with some items in its store. *)
Definition holding (t : Z) (m : store) : engine :=
  {| db := Some {| persist := false; items := m |}; disk := ∅;
     disk_fault := None; now := t; opened := 0; commits := 0;
     rollbacks := 0 |}.

(** ** The scenarios of the test file *)

(** TestNestedCover: the three setters, the reader of "b", and the outer
    callback that nests them; its captured variable is [val]. *)
Definition setAfn : prog error :=
  RWCoverTx (r <- TxSet "a" "b" None ;; Ret (snd r)).

Definition setBfn : prog error :=
  RWCoverTx (r <- TxSet "b" "c" None ;; Ret (snd r)).

Definition setCfn : prog error :=
  RWCoverTx (r <- TxSet "c" "d" None ;; Ret (snd r)).

Definition readBfn : prog (string * error) :=
  Cover false ""%string (TxGet "b").

Definition nested_cover : prog (string * error) :=
  Cover true ""%string (
    r <- TxSet "d" "e" None ;;
    if negb (is_nil (snd r)) then Ret (""%string, snd r)
    else
      err <- setBfn ;;
      if negb (is_nil err) then Ret (""%string, err)
      else
        err <- setAfn ;;
        if negb (is_nil err) then Ret (""%string, err)
        else
          v <- readBfn ;;
          if negb (is_nil (snd v)) then Ret v else Ret (fst v, ErrNil)).

(** The read scope of TestNestedCover that tries [setCfn]: the captured
    variable is the error [setCfn] returned. *)
Definition read_then_set : prog (error * error) :=
  Cover false ErrNil (
    _ <- readBfn ;;
    err <- setCfn ;;
    Ret (err, ErrNil)).

(** TestRWTxCover: a committed write, then one that asks for a rollback. *)
Definition set_two_days : prog error :=
  RWCoverTx (r <- TxSet "a" "b" (ExpireOption (Hour * 48)) ;; Ret (snd r)).

Definition set_then_rollback : prog error :=
  RWCoverTx (_ <- TxSet "a" "c" (ExpireOption (Second * 1)) ;; Ret ErrRollback).

(** TestRTxCover: [tx.Set] on the handle of a read scope. *)
Definition set_in_read_scope : prog error :=
  RCoverTx (r <- TxSet "a" "b" None ;; Ret (snd r)).

(** A store without the given keys. *)
Definition without (ks : list string) (m : store) : store :=
  fold_left (fun acc k => delete k acc) ks m.

(** An error a bulk removal lets pass: nil or [ErrNotFound]. *)
Definition tolerable (e : error) : Prop := e = ErrNil \/ e = ErrNotFound.

(** What a reader on the chain of [w] sees under a key: the open
    transaction's view if there is one, the store otherwise. *)
Definition visible (w : world) (k : string) : option item :=
  match cur w with
  | Some t => live (now (eng w)) (view t) k
  | None => stored (eng w) k
  end.

(** The integer a counter key stands for: 0 when the key is absent. *)
Definition counter_value (e : engine) (k : string) : option Z :=
  match stored e k with
  | Some it => ParseInt (ival it)
  | None => Some 0
  end.

(** * The rest of the repository *)

(** [strconv.ParseInt s 10 64]: an optional sign, then decimal digits; the
    value is clamped and reported out of range beyond 64 bits. *)
Definition strconv_ParseInt (s : string) : Z * error :=
  match s with
  | EmptyString => (0, ErrNew "invalid syntax")
  | String c rest =>
      let neg := Ascii.eqb c "-"%char in
      let digits := if Ascii.eqb c "+"%char || neg then rest else s in
      match NilZero.uint_of_string digits with
      | None => (0, ErrNew "invalid syntax")
      | Some d =>
          let un := Z.of_uint d in
          if negb neg && (2 ^ 63 <=? un)
          then (2 ^ 63 - 1, ErrNew "value out of range")
          else if neg && (2 ^ 63 <? un)
          then (- 2 ^ 63, ErrNew "value out of range")
          else (if neg then - un else un, ErrNil)
      end
  end.

(** Modelled from the spec: [SetIfNotExist] of [lsp/buntdb] (section 4.6,
    setIfAbsent): one read-write scope that writes only if the key does
    not yet exist and succeeds without writing when it does.  The function
    is not part of the sources at hand. *)
Definition SetIfNotExist (key value : string) (opt : option SetOptions)
  : prog error :=
  RWCoverTx (
    g <- TxGet key ;;
    match snd g with
    | ErrNotFound => s <- TxSet key value opt ;; Ret (snd s)
    | err => Ret err
    end).

(** Modelled from the spec: [JsonGet] of [lsp/buntdb] (section 4.4, each
    read is one read scope that deserialises the stored value; a missing
    key fails with NotFound).  [obj] is the object the caller passes and
    [decode] what [json.Unmarshal] makes of the text and reports. *)
Definition JsonGet {A : Type} (decode : string -> A * error) (key : string)
    (obj : A) : prog (A * error) :=
  Cover false obj (
    g <- TxGet key ;;
    if negb (is_nil (snd g)) then Ret (obj, snd g) else Ret (decode (fst g))).

(** [json.Unmarshal] into a fresh record of each type, the zero values the
    getters start from, and the key builders of [lsp/buntdb] for the
    origin marks are declared in files that are not at hand. *)
Class Decoders {R : Records} := {
  UserInfo_zero : UserInfo;
  UserInfo_Unmarshal : string -> UserInfo * error;
  UserStat_zero : UserStat;
  UserStat_Unmarshal : string -> UserStat * error;
  LiveInfo_zero : LiveInfo;
  LiveInfo_Unmarshal : string -> LiveInfo * error;
  NewsInfo_zero : NewsInfo;
  NewsInfo_Unmarshal : string -> NewsInfo * error;
  CookieInfo_Unmarshal : string -> option CookieInfo * error
}.

Class OriginKeys := {
  BilibiliVideoOriginMarkKey : Z -> string -> string;
  BilibiliOriginMarkKey : Z -> string -> string
}.

Section StateManagerReads.

Context {K : KeySet} {R : Records} {D : Decoders} {O : OriginKeys}.

Definition GetUserInfo (mid : Z) : prog (option UserInfo * error) :=
  r <- JsonGet UserInfo_Unmarshal (UserInfoKey mid) UserInfo_zero ;;
  let '(userInfo, err) := r in
  if negb (is_nil err) then Ret (None, err) else Ret (Some userInfo, ErrNil).

Definition GetUserStat (mid : Z) : prog (option UserStat * error) :=
  r <- JsonGet UserStat_Unmarshal (UserStatKey mid) UserStat_zero ;;
  let '(userStat, err) := r in
  if negb (is_nil err) then Ret (None, err) else Ret (Some userStat, ErrNil).

Definition GetLiveInfo (mid : Z) : prog (option LiveInfo * error) :=
  r <- JsonGet LiveInfo_Unmarshal (CurrentLiveKey mid) LiveInfo_zero ;;
  let '(liveInfo, err) := r in
  if negb (is_nil err) then Ret (None, err) else Ret (Some liveInfo, ErrNil).

Definition GetNewsInfo (mid : Z) : prog (option NewsInfo * error) :=
  r <- JsonGet NewsInfo_Unmarshal (CurrentNewsKey mid) NewsInfo_zero ;;
  let '(newsInfo, err) := r in
  if negb (is_nil err) then Ret (None, err) else Ret (Some newsInfo, ErrNil).

Definition SetUidFirstTimestampIfNotExist (uid timestamp : Z) : prog error :=
  SetIfNotExist (UidFirstTimestamp uid) (FormatInt timestamp) None.

(** The callback assigns the named result [timestamp], 0 at the call. *)
Definition GetUidFirstTimestamp (uid : Z) : prog (Z * error) :=
  r <- Cover false 0 (
    let key := UidFirstTimestamp uid in
    g <- TxGet key ;;
    let '(tsStr, err) := g in
    if negb (is_nil err) then Ret (0, err)
    else Ret (strconv_ParseInt tsStr)) ;;
  let '(timestamp, err) := r in
  Ret (if negb (is_nil err) then 0 else timestamp, err).

Definition SetGroupVideoOriginMarkIfNotExist (groupCode : Z) (bvid : string)
  : prog error :=
  SetIfNotExist (BilibiliVideoOriginMarkKey groupCode bvid) ""%string
    (ExpireOption (Minute * 15)).

Definition SetGroupOriginMarkIfNotExist (groupCode : Z)
    (dynamicIdStr : string) : prog error :=
  SetIfNotExist (BilibiliOriginMarkKey groupCode dynamicIdStr) ""%string
    (ExpireOption (Minute * 15)).


End StateManagerReads.

(** The engine at another instant of its clock. *)
Definition at_time (t : Z) (e : engine) : engine :=
  {| db := db e; disk := disk e; disk_fault := disk_fault e; now := t;
     opened := opened e; commits := commits e; rollbacks := rollbacks e |}.

(** Decoders for the sample records that know the records the examples
    store. *)
Definition sample_decoders : Decoders (R := sample_records) :=
  @Build_Decoders sample_records
    (0, ""%string)
    (fun s =>
       if String.eqb s "user:42:name" then ((42, "name"%string), ErrNil)
       else ((0, ""%string), ErrNew "unexpected end of JSON input"))
    (0, 0)
    (fun s =>
       if String.eqb s "stat:42:7" then ((42, 7), ErrNil)
       else ((0, 0), ErrNew "unexpected end of JSON input"))
    ((0, ""%string), ""%string)
    (fun s =>
       if String.eqb s "live:42:name:title"
       then (((42, "name"%string), "title"%string), ErrNil)
       else (((0, ""%string), ""%string),
             ErrNew "unexpected end of JSON input"))
    ((0, ""%string), ""%string)
    (fun s =>
       if String.eqb s "news:42:name:title"
       then (((42, "name"%string), "title"%string), ErrNil)
       else (((0, ""%string), ""%string),
             ErrNew "unexpected end of JSON input"))
    (fun s =>
       if String.eqb s "2000000000,5" then (Some [2000000000; 5], ErrNil)
       else (None, ErrNew "unexpected end of JSON input")).

Definition sample_origin_keys : OriginKeys :=
  {| BilibiliVideoOriginMarkKey := fun g bvid =>
       NamedKey "bilibiliVideoOriginMark" [SegInt Int64 g; SegString bvid];
     BilibiliOriginMarkKey := fun g id =>
       NamedKey "bilibiliOriginMark" [SegInt Int64 g; SegString id] |}.

(** The store a reader on the chain of [w] looks into. *)
Definition base (w : world) : store :=
  match cur w with
  | Some t => view t
  | None =>
      match db (eng w) with
      | Some d => items d
      | None => ∅
      end
  end.

(** An item as a reader at time [t] finds it. *)
Definition unexpired (t : Z) (it : item) : option item :=
  if expired t it then None else Some it.

(** The store of the engine, empty before initialisation. *)
Definition items_of (e : engine) : store :=
  match db e with
  | Some d => items d
  | None => ∅
  end.

(** An initialised engine whose commits cannot fail: it is in memory or
    its disk works. *)
Definition healthy (e : engine) : Prop :=
  exists d : DB, db e = Some d /\ (disk_fault e = None \/ persist d = false).

(** The shape the four getters share: [JsonGet] into a zero record, then
    nil with the error or the record with nil. *)
Definition get_record {A : Type} (decode : string -> A * error)
    (key : string) (zero : A) : prog (option A * error) :=
  r <- JsonGet decode key zero ;;
  let '(x, err) := r in
  if negb (is_nil err) then Ret (None, err) else Ret (Some x, ErrNil).

(** What it is for [p] to read the record stored under [key]: a nil
    record exactly with an error; nothing changes for any reader;
    [ErrNotFound] when no item is visible under the key,
    [ErrNotInitialized] before initialisation, and otherwise what
    [decode] makes of the visible text. *)
Definition reads_record {A : Type} (decode : string -> A * error)
    (key : string) (p : prog (option A * error)) : Prop :=
  forall w : world,
    let r := run p w in
    (r.1.1 = None <-> r.1.2 <> ErrNil) /\
    (forall k : string, visible r.2 k = visible w k) /\
    (visible w key = None -> (cur w = None -> db (eng w) <> None) ->
     r.1 = (None, ErrNotFound)) /\
    (forall it : item,
        visible w key = Some it ->
        r.1 = if is_nil (decode (ival it)).2
              then (Some (decode (ival it)).1, ErrNil)
              else (None, (decode (ival it)).2)) /\
    (cur w = None -> db (eng w) = None -> r.1 = (None, ErrNotInitialized)).

(** What the callback of [AddNewsInfo] leaves in a store. *)
Definition news_records {K : KeySet} {R : Records} (n : NewsInfo) (m : store)
  : store :=
  <[CurrentNewsKey (UserInfo_Mid (NewsInfo_UserInfo n)) :=
      {| ival := NewsInfo_ToString n; deadline := None |}]>
    (<[UserInfoKey (UserInfo_Mid (NewsInfo_UserInfo n)) :=
         {| ival := UserInfo_ToString (NewsInfo_UserInfo n);
            deadline := None |}]> m).

(** [p] run [n] times in a row, with what each run returned. *)
Fixpoint repeat_run {A : Type} (p : prog A) (n : nat) (w : world)
  : list A * world :=
  match n with
  | O => ([], w)
  | S n' =>
      let '(a, w1) := run p w in
      let '(l, w2) := repeat_run p n' w1 in
      (a :: l, w2)
  end.

(** A durable engine at time [t] whose disk refuses writes. *)
Definition full_disk (t : Z) (m : store) : engine :=
  {| db := Some {| persist := true; items := m |}; disk := m;
     disk_fault := Some "no space left on device"%string; now := t;
     opened := 0; commits := 0; rollbacks := 0 |}.


(** The sample records with an encoder that fails. *)
Definition unencodable_records : Records :=
  {| UserInfo := Z * string;
     UserInfo_Mid := fst;
     UserInfo_ToString := fun u => u.2;
     UserStat := Z * Z;
     UserStat_Mid := fst;
     UserStat_ToString := fun u => FormatInt u.2;
     LiveInfo := (Z * string) * string;
     LiveInfo_UserInfo := fst;
     LiveInfo_ToString := fun l => l.2;
     NewsInfo := (Z * string) * string;
     NewsInfo_UserInfo := fst;
     NewsInfo_ToString := fun n => n.2;
     CookieInfo := list Z;
     Cookie := Z;
     json_Marshal := fun _ =>
       (""%string, ErrNew "json: unsupported value");
     GetCookies := fun c => c;
     GetExpires := fun c => c |}.

(** * The space-history request ([lsp/bilibili/space_history.go]) *)

Definition PathDynamicSrvSpaceHistory : string :=
  "/dynamic_svr/v1/dynamic_svr/space_history".

Record DynamicSrvSpaceHistoryRequest := {
  OffsetDynamicId : Z;
  HostUid : Z;
  NeedTop : Z
}.

(** [BPath], [utils.ToParams], [requests.Get] and the response's [Json]
    are declared in files that are not at hand, and what the network
    answers is not the program's: they are parameters.  [requests_Get]
    gives the response the later steps work on together with the error. *)
Class Http := {
  Params : Type;
  Response : Type;
  DynamicSvrSpaceHistoryResponse : Type;
  BPath : string -> string;
  ToParams : DynamicSrvSpaceHistoryRequest -> Params * error;
  requests_Get : string -> Params -> Response * error;
  Response_Json : Response -> DynamicSvrSpaceHistoryResponse * error
}.

Definition DynamicSrvSpaceHistory {H : Http} (hostUid : Z)
  : option DynamicSvrSpaceHistoryResponse * error :=
  let url := BPath PathDynamicSrvSpaceHistory in
  let '(params, err) :=
    ToParams {| HostUid := hostUid; OffsetDynamicId := 0; NeedTop := 0 |} in
  if negb (is_nil err) then (None, err)
  else
    let '(resp, err) := requests_Get url params in
    if negb (is_nil err) then (None, err)
    else
      let '(spaceHistoryResp, err) := Response_Json resp in
      if negb (is_nil err) then (None, err)
      else (Some spaceHistoryResp, ErrNil).

(** A server that answers every request for host 42 and refuses the
    others. *)
Definition sample_http : Http :=
  {| Params := Z;
     Response := string;
     DynamicSvrSpaceHistoryResponse := string;
     BPath := fun path => ("https://api.vc.bilibili.com" ++ path)%string;
     ToParams := fun req => (HostUid req, ErrNil);
     requests_Get := fun url host =>
       if host =? 42 then ("{}"%string, ErrNil)
       else (""%string, ErrNew "connection refused");
     Response_Json := fun body => (body, ErrNil) |}.

(** * The transaction bound to a chain *)

Lemma run_in_tx {A : Type} (p : prog A) (w : world) (t : txn) :
  cur w = Some t ->
  exists t', cur (run p w).2 = Some t' /\ writable t' = writable t /\
             eng (run p w).2 = eng w.
Proof.
  revert w t. induction p; intros w t Hc; simpl.
  - eauto.
  - destruct (run p w) as [a w1] eqn:E.
    destruct (IHp w t Hc) as (t1 & H1 & H2 & H3). rewrite E in *. simpl in *.
    destruct (H a w1 t1 H1) as (t2 & G1 & G2 & G3).
    exists t2. split; [done|]. split; congruence.
  - eauto.
  - unfold tx_set. rewrite Hc. destruct (writable t) eqn:W; simpl; eauto 6.
  - unfold tx_delete. rewrite Hc. destruct (writable t) eqn:W; simpl; eauto.
    destruct (view t !! key); simpl; eauto.
    destruct (expired _ _); simpl; eauto 6.
  - eauto.
  - eauto.
  - rewrite Hc. destruct (wr && negb (writable t)); simpl; eauto.
Qed.

Lemma run_read_only {A : Type} (p : prog A) (w : world) (t : txn) :
  cur w = Some t -> writable t = false -> (run p w).2 = w.
Proof.
  revert w t. induction p; intros w t Hc Hw; simpl; try done.
  - destruct (run p w) as [a w1] eqn:E.
    pose proof (IHp w t Hc Hw) as E1. rewrite E in E1. simpl in E1. subst w1.
    by apply (H a w t).
  - unfold tx_set. by rewrite Hc, Hw.
  - unfold tx_delete. by rewrite Hc, Hw.
  - rewrite Hc, Hw. destruct wr; simpl; [done|]. by apply (IHp w t).
Qed.

Lemma finish_idle (d : DB) (err : error) (w : world) :
  cur (finish d err w).2 = None.
Proof.
  unfold finish. destruct (cur w) as [t|]; [|done].
  destruct (writable t); [|done].
  destruct (is_nil err); [|done].
  by destruct (commit d t (eng w)).
Qed.

Lemma run_idle {A : Type} (p : prog A) (w : world) :
  cur w = None -> cur (run p w).2 = None.
Proof.
  revert w. induction p; intros w Hc; simpl; try done.
  - destruct (run p w) as [a w1] eqn:E.
    apply H. pose proof (IHp w Hc) as E1. by rewrite E in E1.
  - unfold tx_set. by rewrite Hc.
  - unfold tx_delete. by rewrite Hc.
  - rewrite Hc. destruct (db (eng w)) as [d|]; [|done].
    destruct (run p (begin wr d (eng w))) as [[a err] w1].
    pose proof (finish_idle d err w1) as F.
    by destruct (finish d err w1).
Qed.

Lemma run_bind_ret {A : Type} (m : prog A) (w : world) :
  run (x <- m ;; Ret x) w = run m w.
Proof. cbn [run]. by destruct (run m w). Qed.

(** ** The cases of a cover call *)

Lemma RWCoverTx_nested (f : prog error) (w : world) (t : txn) :
  cur w = Some t -> writable t = true -> run (RWCoverTx f) w = run f w.
Proof.
  intros Hc Hw. unfold RWCoverTx, plain. simpl. rewrite Hc, Hw. simpl.
  by destruct (run f w).
Qed.

Lemma RWCoverTx_in_read_scope (f : prog error) (w : world) (t : txn) :
  cur w = Some t -> writable t = false ->
  run (RWCoverTx f) w = (ErrTxNotWritable, w).
Proof. intros Hc Hw. unfold RWCoverTx. simpl. by rewrite Hc, Hw. Qed.

Lemma RCoverTx_nested (f : prog error) (w : world) (t : txn) :
  cur w = Some t -> run (RCoverTx f) w = run f w.
Proof.
  intros Hc. unfold RCoverTx, plain. simpl. rewrite Hc. simpl.
  by destruct (run f w).
Qed.

Lemma RWCoverTx_not_initialized (f : prog error) (e : engine) :
  db e = None -> run (RWCoverTx f) (idle e) = (ErrNotInitialized, idle e).
Proof. intros Hd. unfold RWCoverTx. simpl. by rewrite Hd. Qed.

Lemma RCoverTx_not_initialized (f : prog error) (e : engine) :
  db e = None -> run (RCoverTx f) (idle e) = (ErrNotInitialized, idle e).
Proof. intros Hd. unfold RCoverTx. simpl. by rewrite Hd. Qed.

Lemma RWCoverTx_outermost (f : prog error) (e : engine) (d : DB) :
  db e = Some d ->
  run (RWCoverTx f) (idle e) =
  finish d (run f (begin true d e)).1 (run f (begin true d e)).2.
Proof.
  intros Hd. unfold RWCoverTx, plain. cbn [run idle cur eng]. rewrite Hd.
  cbn [run]. destruct (run f (begin true d e)) as [err w1]. simpl.
  by destruct (finish d err w1).
Qed.

Lemma RCoverTx_outermost (f : prog error) (e : engine) (d : DB) :
  db e = Some d ->
  run (RCoverTx f) (idle e) =
  ((run f (begin false d e)).1, idle (eng (begin false d e))).
Proof.
  intros Hd.
  pose proof (run_read_only f (begin false d e) _ eq_refl eq_refl) as R.
  unfold RCoverTx, plain. cbn [run idle cur eng]. rewrite Hd. cbn [run].
  destruct (run f (begin false d e)) as [err w1]. simpl in R. by subst w1.
Qed.

(** What the outermost read-write call does once its callback is back. *)
Lemma finish_write (d : DB) (err : error) (w : world) (t : txn) :
  cur w = Some t -> writable t = true ->
  finish d err w =
  if is_nil err
  then ((commit d t (eng w)).1, idle (commit d t (eng w)).2)
  else (err, idle (discard (eng w))).
Proof.
  intros Hc Hw. unfold finish. rewrite Hc, Hw.
  destruct (is_nil err); [|done]. by destruct (commit d t (eng w)).
Qed.

Lemma commit_once (d : DB) (t : txn) (e : engine) :
  (commits (commit d t e).2 + rollbacks (commit d t e).2
   = S (commits e + rollbacks e))%nat /\
  opened (commit d t e).2 = opened e.
Proof.
  unfold commit. destruct (disk_fault e); [|simpl; lia].
  destruct (persist d && dirty t); simpl; lia.
Qed.

(** ** Chains of nested read-write calls *)

Lemma writes_in_write_scope (ws : list (string * string)) (w : world) (t : txn) :
  cur w = Some t -> writable t = true ->
  exists t', run (writes ws) w = (ErrNil, set_cur w t') /\
             writable t' = true /\
             view t' = written (now (eng w)) ws (view t).
Proof.
  revert w t. induction ws as [|[k v] ws IH]; intros w t Hc Hw.
  - exists t. simpl. destruct w as [g c]. simpl in *. by subst c.
  - cbn [writes run]. unfold tx_set at 1. rewrite Hc, Hw. cbn [snd is_nil negb].
    set (t1 := {| writable := true; view := _; dirty := true |}).
    destruct (IH (set_cur w t1) t1 eq_refl eq_refl) as (t' & R & W' & V').
    exists t'. rewrite R. done.
Qed.

Lemma chain_in_write_scope (levels : list (list (string * string)))
    (last : error) (w : world) (t : txn) :
  cur w = Some t -> writable t = true ->
  exists t', run (chain levels last) w = (last, set_cur w t') /\
             writable t' = true /\
             view t' = written (now (eng w)) (concat levels) (view t).
Proof.
  revert w t. induction levels as [|ws levels IH]; intros w t Hc Hw.
  - exists t. simpl. destruct w as [g c]. simpl in *. by subst c.
  - cbn [chain run].
    destruct (writes_in_write_scope ws w t Hc Hw) as (t1 & R & W1 & V1).
    rewrite R. cbn [is_nil negb].
    rewrite (RWCoverTx_nested _ (set_cur w t1) t1 eq_refl W1).
    destruct (IH (set_cur w t1) t1 eq_refl W1) as (t2 & R2 & W2 & V2).
    exists t2. rewrite R2. split; [done|]. split; [done|].
    rewrite V2, V1. simpl. unfold written. by rewrite fold_left_app.
Qed.

Lemma chain_outermost (levels : list (list (string * string))) (last : error)
    (e : engine) (d : DB) :
  db e = Some d ->
  exists t', writable t' = true /\
             view t' = written (now e) (concat levels) (items d) /\
             run (RWCoverTx (chain levels last)) (idle e) =
             if is_nil last
             then ((commit d t' (eng (begin true d e))).1,
                   idle (commit d t' (eng (begin true d e))).2)
             else (last, idle (discard (eng (begin true d e)))).
Proof.
  intros Hd.
  destruct (chain_in_write_scope levels last (begin true d e) _ eq_refl eq_refl)
    as (t2 & R2 & W2 & V2).
  exists t2. split; [done|]. split; [done|].
  rewrite (RWCoverTx_outermost _ e d Hd), R2. cbn [fst snd].
  by rewrite (finish_write d last (set_cur (begin true d e) t2) t2 eq_refl W2).
Qed.

(** * Nested read-write scopes commit once *)

(** C1, as amended.  On an initialised engine and a chain without a
    transaction, [RWCoverTx f] opens one transaction and ends it with
    exactly one commit or one rollback, whatever [f] nests.  An error of
    the outermost callback is returned as it is and nothing of the
    transaction is kept.  A [RWCoverTx] nested in a write scope hands its
    callback's return value to the enclosing callback and neither commits
    nor rolls back.  So when every level of a chain returns what its nested
    call returned, a rollback sentinel (or any error) of the innermost
    callback, at any depth, reaches the outermost caller unchanged and the
    writes of every depth are discarded; with a nil return and a working
    disk the writes of every depth are committed together. *)
Theorem nested_RWCoverTx_commits_once (f : prog error) (e : engine) (d : DB) :
  db e = Some d ->
  let r := run (RWCoverTx f) (idle e) in
  let cb := run f (begin true d e) in
  let rolled_back :=
    {| db := db e; disk := disk e; disk_fault := disk_fault e; now := now e;
       opened := S (opened e); commits := commits e;
       rollbacks := S (rollbacks e) |} in
  cur r.2 = None /\
  opened (eng r.2) = S (opened e) /\
  (commits (eng r.2) + rollbacks (eng r.2) = S (commits e + rollbacks e))%nat /\
  (cb.1 <> ErrNil -> r = (cb.1, idle rolled_back)) /\
  (forall (g : prog error) (w : world) (t : txn),
      cur w = Some t -> writable t = true ->
      run (RWCoverTx g) w = run g w /\ eng (run g w).2 = eng w) /\
  (forall (levels : list (list (string * string))) (last : error),
      last <> ErrNil ->
      run (RWCoverTx (chain levels last)) (idle e) = (last, idle rolled_back)) /\
  (forall levels : list (list (string * string)),
      disk_fault e = None ->
      let r' := run (RWCoverTx (chain levels ErrNil)) (idle e) in
      r'.1 = ErrNil /\
      db (eng r'.2) =
        Some {| persist := persist d;
                items := written (now e) (concat levels) (items d) |} /\
      commits (eng r'.2) = S (commits e) /\
      rollbacks (eng r'.2) = rollbacks e).
Proof.
  intros Hd r cb rolled_back.
  assert (Hrb : discard (eng (begin true d e)) = rolled_back) by done.
  destruct (run_in_tx f (begin true d e) _ eq_refl) as (t1 & C1 & W1 & E1).
  assert (Hr : r = finish d cb.1 cb.2) by (by apply RWCoverTx_outermost).
  rewrite (finish_write d cb.1 cb.2 t1 C1 W1) in Hr. fold cb in E1.
  split; [|split; [|split; [|split; [|split; [|split]]]]].
  - rewrite Hr. by destruct (is_nil cb.1).
  - rewrite Hr. destruct (is_nil cb.1); simpl.
    + rewrite (proj2 (commit_once d t1 (eng cb.2))). by rewrite E1.
    + by rewrite E1.
  - rewrite Hr. destruct (is_nil cb.1); simpl.
    + rewrite (proj1 (commit_once d t1 (eng cb.2))). by rewrite E1.
    + rewrite E1. simpl. lia.
  - intros Hne. rewrite Hr. destruct cb.1 eqn:Ecb; try done; simpl;
      by rewrite E1, Hrb.
  - intros g w t Hc Hw. split; [by apply (RWCoverTx_nested g w t)|].
    by destruct (run_in_tx g w t Hc) as (t' & _ & _ & G).
  - intros levels last Hne.
    destruct (chain_outermost levels last e d Hd) as (t2 & W2 & V2 & R2).
    rewrite R2. by destruct last.
  - intros levels Hf r'.
    destruct (chain_outermost levels ErrNil e d Hd) as (t2 & W2 & V2 & R2).
    subst r'. rewrite R2. unfold commit. simpl. rewrite Hf. simpl.
    by rewrite V2.
Qed.

Lemma nested_RWCoverTx_commits_once_witness :
  db (fresh 0) = Some {| persist := false; items := ∅ |} /\
  run (RWCoverTx (chain [[("d", "e")]; [("b", "c")]; [("a", "b")]] ErrRollback))
      (idle (fresh 0))
  = (ErrRollback,
     idle {| db := db (fresh 0); disk := ∅; disk_fault := None; now := 0;
             opened := 1; commits := 0; rollbacks := 1 |}).
Proof.
  split; [reflexivity|].
  destruct (nested_RWCoverTx_commits_once (Ret ErrNil) (fresh 0)
              {| persist := false; items := ∅ |} eq_refl)
    as (_ & _ & _ & _ & _ & Hchain & _).
  apply (Hchain [[("d", "e")]; [("b", "c")]; [("a", "b")]] ErrRollback).
  discriminate.
Defined.

(** C1 as it is stated fails when an enclosing callback does not pass the
    error on: in [swallow] the nested callback returns [ErrRollback], the
    outer callback returns nil, and the outermost [RWCoverTx] returns nil
    and commits the writes of both depths. *)
Lemma swallowed_rollback_is_committed :
  let r := run swallow (idle (fresh 0)) in
  r.1 = ErrNil /\
  stored (eng r.2) "a" = Some {| ival := "b"; deadline := None |} /\
  stored (eng r.2) "c" = Some {| ival := "d"; deadline := None |} /\
  commits (eng r.2) = 1%nat /\ rollbacks (eng r.2) = 0%nat.
Proof. vm_compute. repeat split. Qed.

(** * Writing within a read scope *)

(** C2.  On a chain whose open transaction is read-only, a nested
    [RWCoverTx] fails with [ErrTxNotWritable] without running its callback,
    [tx.Set] on the handle fails with [ErrTxNotWritable], and nothing that
    runs within the scope changes anything: a key that is absent stays
    absent, within the scope and once the outermost [RCoverTx] has
    returned. *)
Theorem write_in_read_scope_fails (w : world) (t : txn) :
  cur w = Some t -> writable t = false ->
  (forall f : prog error, run (RWCoverTx f) w = (ErrTxNotWritable, w)) /\
  (forall (k v : string) (o : option SetOptions),
      run (TxSet k v o) w = ((""%string, false, ErrTxNotWritable), w)) /\
  (forall (A : Type) (p : prog A) (k : string),
      (run p w).2 = w /\
      (tx_get k w = (""%string, ErrNotFound) ->
       tx_get k (run p w).2 = (""%string, ErrNotFound))) /\
  (forall (e : engine) (d : DB) (p : prog error) (k : string),
      db e = Some d ->
      let r := run (RCoverTx p) (idle e) in
      db (eng r.2) = db e /\ cur r.2 = None /\
      (stored e k = None -> stored (eng r.2) k = None)).
Proof.
  intros Hc Hw. split; [|split; [|split]].
  - intros f. by apply (RWCoverTx_in_read_scope f w t).
  - intros k v o. simpl. unfold tx_set. by rewrite Hc, Hw.
  - intros A p k. rewrite (run_read_only p w t Hc Hw). done.
  - intros e d p k Hd r. subst r. rewrite (RCoverTx_outermost p e d Hd).
    simpl. unfold stored. simpl. done.
Qed.

Lemma write_in_read_scope_fails_witness :
  run (RWCoverTx (writes [("c", "d")]))
      (begin false {| persist := false; items := ∅ |} (fresh 0))
  = (ErrTxNotWritable,
     begin false {| persist := false; items := ∅ |} (fresh 0)).
Proof.
  apply (write_in_read_scope_fails
           (begin false {| persist := false; items := ∅ |} (fresh 0))
           {| writable := false; view := ∅; dirty := false |});
    reflexivity.
Defined.

(** * Before and after [InitBuntDB] *)

(** C8.  While the handle is nil, [GetClient] returns [ErrNotInitialized]
    and both cover calls return [ErrNotInitialized] whatever their
    callback is, leaving everything as it was.  [InitBuntDB] then succeeds,
    and after it [GetClient] returns a handle with a nil error, and a
    cover call on a chain without a transaction returns what running its
    callback in a new transaction yields. *)
Theorem not_initialized_fails_fast (e : engine) :
  db e = None ->
  GetClient e = (None, ErrNotInitialized) /\
  (forall f : prog error,
      run (RCoverTx f) (idle e) = (ErrNotInitialized, idle e)) /\
  (forall f : prog error,
      run (RWCoverTx f) (idle e) = (ErrNotInitialized, idle e)) /\
  (forall target : string,
      let e' := (InitBuntDB target e).2 in
      (InitBuntDB target e).1 = ErrNil /\
      exists d : DB,
        GetClient e' = (Some d, ErrNil) /\
        (forall f : prog error,
            run (RCoverTx f) (idle e') =
            ((run f (begin false d e')).1, idle (eng (begin false d e')))) /\
        (forall f : prog error,
            run (RWCoverTx f) (idle e') =
            finish d (run f (begin true d e')).1 (run f (begin true d e')).2)).
Proof.
  intros Hd. split; [|split; [|split]].
  - unfold GetClient. by rewrite Hd.
  - intros f. by apply RCoverTx_not_initialized.
  - intros f. by apply RWCoverTx_not_initialized.
  - intros target e'. subst e'. unfold InitBuntDB. rewrite Hd.
    destruct (String.eqb target MEMORYDB); (split; [done|]);
      eexists; (split; [reflexivity|]); split; intros f.
    + by apply RCoverTx_outermost.
    + by apply RWCoverTx_outermost.
    + by apply RCoverTx_outermost.
    + by apply RWCoverTx_outermost.
Qed.

Lemma not_initialized_fails_fast_witness :
  db (boot 0) = None /\
  run (RWCoverTx (writes [("a", "b")])) (idle (boot 0))
  = (ErrNotInitialized, idle (boot 0)).
Proof.
  split; [reflexivity|].
  apply (not_initialized_fails_fast (boot 0)). reflexivity.
Defined.

(** * The test file, replayed *)

(** TestGetClient and the first lines of TestRTxCover. *)
Example test_get_client :
  GetClient (boot 0) = (None, ErrNotInitialized) /\
  (InitBuntDB MEMORYDB (boot 0)).1 = ErrNil /\
  (GetClient (InitBuntDB MEMORYDB (boot 0)).2).2 = ErrNil /\
  (InitBuntDB MEMORYDB (boot 0)).2 = fresh 0.
Proof. repeat split. Qed.

Example test_r_tx_cover :
  let r1 := run set_in_read_scope (idle (fresh 0)) in
  let r2 := run setAfn r1.2 in
  let r3 := run (read "a") r2.2 in
  r1.1 = ErrTxNotWritable /\ r2.1 = ErrNil /\ r3.1 = ("b"%string, ErrNil).
Proof. vm_compute. repeat split. Qed.

Example test_rw_tx_cover :
  let r1 := run set_two_days (idle (fresh 0)) in
  let r2 := run set_then_rollback r1.2 in
  let r3 := run (read_ttl "a") r2.2 in
  r1.1 = ErrNil /\ r2.1 = ErrRollback /\
  r3.1.2 = ErrNil /\ Hour * 47 < r3.1.1.
Proof. vm_compute. repeat split. Qed.

Example test_nested_cover :
  let r1 := run nested_cover (idle (fresh 0)) in
  let r2 := run read_then_set r1.2 in
  let r3 := run (read "c") r2.2 in
  r1.1 = ("c"%string, ErrNil) /\
  (run (read "a") r1.2).1 = ("b"%string, ErrNil) /\
  (run (read "b") r1.2).1 = ("c"%string, ErrNil) /\
  (run (read "d") r1.2).1 = ("e"%string, ErrNil) /\
  commits (eng r1.2) = 1%nat /\
  r2.1 = (ErrTxNotWritable, ErrNil) /\
  r3.1 = (""%string, ErrNotFound).
Proof. vm_compute. repeat split. Qed.

(** * Key names *)

Lemma append_assoc (a b c : string) :
  ((a ++ b) ++ c)%string = (a ++ b ++ c)%string.
Proof.
  induction a as [|x a IH]; [done|].
  change (String x ((a ++ b) ++ c) = String x (a ++ b ++ c))%string.
  by rewrite IH.
Qed.

Lemma Join_cons (a : string) (l : list string) (sep : string) :
  l <> [] -> Join (a :: l) sep = (a ++ sep ++ Join l sep)%string.
Proof. by destruct l. Qed.

Lemma Join_first (a b : string) (l : list string) (sep : string) :
  Join ((a ++ sep ++ b)%string :: l) sep = (a ++ sep ++ Join (b :: l) sep)%string.
Proof.
  destruct l as [|c l]; [done|].
  rewrite !Join_cons by done. by rewrite !append_assoc.
Qed.

Lemma NamedKey_key_format (name : string) (keys : list segment) :
  NamedKey name keys = key_format name keys.
Proof.
  unfold NamedKey, key_format. revert name.
  induction keys as [|k keys IH]; intros name; [done|].
  cbn [map fold_left]. rewrite <- IH.
  by rewrite Join_first.
Qed.

Lemma ParseInt_FormatInt (z : Z) : ParseInt (FormatInt z) = Some z.
Proof.
  unfold ParseInt, FormatInt.
  rewrite NilZero.isi.
  - by rewrite DecimalZ.of_to.
  - destruct z; simpl; [done|..]; intros [= H];
      by apply DecimalPos.Unsigned.to_uint_nonnil in H.
  - destruct z; simpl; [done|..]; intros [= H];
      by apply DecimalPos.Unsigned.to_uint_nonnil in H.
Qed.

(** C7.  [NamedKey] is the tag followed by each segment, each after a
    colon ([<tag>:<segment1>:<segment2>:...]); an integer segment of any
    Go type is written in decimal (reading it back gives the integer), a
    boolean as true or false, a string as it is; the two keys of
    TestNamedKey come out as expected. *)
Theorem NamedKey_colon_joined :
  (forall (name : string) (keys : list segment),
      NamedKey name keys = key_format name keys) /\
  (forall name : string, NamedKey name [] = name) /\
  (forall (name : string) (keys : list segment) (k : segment),
      NamedKey name (keys ++ [k])
      = (NamedKey name keys ++ ":" ++ segment_text k)%string) /\
  (forall (ty : int_type) (z : Z),
      segment_text (SegInt ty z) = FormatInt z /\
      ParseInt (segment_text (SegInt ty z)) = Some z) /\
  (forall s : string, segment_text (SegString s) = s) /\
  segment_text (SegBool true) = "true"%string /\
  segment_text (SegBool false) = "false"%string /\
  NamedKey "t1" [SegString "s1"; SegString "s2"; SegInt Int32 3; SegInt Int64 4]
  = "t1:s1:s2:3:4"%string /\
  NamedKey "t2" [SegString "s3"; SegInt Uint32 5; SegBool false]
  = "t2:s3:5:false"%string.
Proof.
  split; [apply NamedKey_key_format|]. split; [done|].
  split.
  { intros name keys k. rewrite !NamedKey_key_format. unfold key_format.
    by rewrite fold_left_app. }
  split.
  { intros ty z. split; [done|]. apply ParseInt_FormatInt. }
  repeat split.
Qed.

(** * The state repository *)

Section StateManagerFacts.

Context {K : KeySet} {R : Records}.

(** C9.  With a nil pointer, each of the five writers returns its error at
    once: no transaction is begun and nothing changes, in whatever state
    the chain and the engine are. *)
Theorem nil_arguments_rejected (w : world) (username : string)
    (opt : option SetOptions) :
  run (AddUserInfo None) w = (ErrNew "nil UserInfo", w) /\
  run (AddUserStat None opt) w = (ErrNew "nil UserStat", w) /\
  run (AddLiveInfo None) w = (ErrNew "nil LiveInfo", w) /\
  run (AddNewsInfo None) w = (ErrNew "nil NewsInfo", w) /\
  run (SetCookieInfo username None) w = (ErrNew "<nil> cookieInfo", w) /\
  (forall msg : string, is_nil (ErrNew msg) = false).
Proof. repeat split. Qed.

(** C5.  [CheckDynamicId] returns true exactly when reading the key in a
    read scope fails with [ErrNotFound]; it returns false when the read
    succeeds and when it fails with any other error, and it leaves the
    store as the read does.  On a chain without a transaction that is:
    true exactly when the engine is initialised and the key is absent. *)
Theorem CheckDynamicId_true_iff_not_found (dynamic : Z) (w : world) :
  let r := run (CheckDynamicId dynamic) w in
  let probe := run (read (DynamicIdKey dynamic)) w in
  (r.1 = true <-> probe.1.2 = ErrNotFound) /\
  (probe.1.2 = ErrNil -> r.1 = false) /\
  (probe.1.2 <> ErrNil -> probe.1.2 <> ErrNotFound -> r.1 = false) /\
  r.2 = probe.2 /\
  (forall e : engine,
      w = idle e ->
      (r.1 = true <->
       (exists d, db e = Some d) /\ stored e (DynamicIdKey dynamic) = None)).
Proof.
  intros r probe. subst r probe. unfold CheckDynamicId, read, stored.
  cbn [run]. destruct (cur w) as [t|] eqn:Hc.
  - cbn [andb]. cbn [run]. unfold tx_get. rewrite Hc.
    destruct (live (now (eng w)) (view t) (DynamicIdKey dynamic)); simpl;
      (split; [done|]); (split; [done|]); (split; [done|]); (split; [done|]);
      intros e ->; done.
  - destruct (db (eng w)) as [d|] eqn:Hd.
    + cbn [run]. unfold tx_get. cbn [begin cur eng now view].
      destruct (live (now (eng w)) (items d) (DynamicIdKey dynamic)) eqn:L;
        simpl; (split; [done|]); (split; [done|]); (split; [done|]);
        (split; [done|]); intros e ->; simpl in *; rewrite Hd, L;
        split; try done; [intros [_ ?]; done | eauto].
    + simpl. (split; [done|]); (split; [done|]); (split; [done|]);
        (split; [done|]). intros e ->. simpl in *. rewrite Hd.
      split; [done|]. by intros [[d ?] _].
Qed.

(** C6.  [IncNotLiveCount] returns the value [SeqNext] returns for the
    uid's counter key, and 0 whenever [SeqNext] returns an error.  On an
    initialised engine with a working disk and a chain without a
    transaction, that value is the stored count plus one, which is also
    what the key holds afterwards. *)
Theorem IncNotLiveCount_zero_on_error (uid : Z) (w : world) :
  let s := run (SeqNext (NotLiveKey uid)) w in
  let r := run (IncNotLiveCount uid) w in
  r = ((if is_nil s.1.2 then s.1.1 else 0), s.2) /\
  (s.1.2 <> ErrNil -> r.1 = 0) /\
  (forall (e : engine) (d : DB) (n : Z),
      w = idle e -> db e = Some d -> disk_fault e = None ->
      counter_value e (NotLiveKey uid) = Some n ->
      - 2 ^ 63 <= n + 1 < 2 ^ 63 ->
      r.1 = n + 1 /\
      stored (eng r.2) (NotLiveKey uid)
      = Some {| ival := FormatInt (n + 1); deadline := None |} /\
      counter_value (eng r.2) (NotLiveKey uid) = Some (n + 1)) /\
  (forall e : engine, w = idle e -> db e = None -> r.1 = 0).
Proof.
  intros s r.
  assert (Hr : r = ((if is_nil s.1.2 then s.1.1 else 0), s.2)).
  { subst r s. unfold IncNotLiveCount. cbn [run].
    destruct (run (SeqNext (NotLiveKey uid)) w) as [[result err] w1].
    simpl. by destruct (is_nil err). }
  split; [exact Hr|]. split; [|split].
  - intros Hne. rewrite Hr. simpl. by destruct s.1.2.
  - intros e d n -> Hd Hf Hn Hrange. rewrite Hr. subst s. clear Hr r.
    unfold counter_value, stored in Hn. rewrite Hd in Hn.
    assert (Hw : wrap64 (n + 1) = n + 1).
    { unfold wrap64. rewrite Z.mod_small; lia. }
    unfold SeqNext. cbn [run idle cur eng]. rewrite Hd. cbn [run].
    unfold tx_get. cbn [begin cur eng now view].
    destruct (live (now e) (items d) (NotLiveKey uid)) as [it|] eqn:L.
    + cbn [is_nil]. rewrite Hn. cbn [run]. rewrite Hw.
      unfold tx_set, finish, commit. cbn. rewrite Hf. cbn.
      unfold counter_value, stored, live. cbn.
      rewrite lookup_insert_eq. cbn. by rewrite ParseInt_FormatInt.
    + cbn [is_nil]. injection Hn as <-. cbn [run].
      unfold tx_set, finish, commit. cbn. rewrite Hf. cbn.
      unfold counter_value, stored, live. cbn.
      rewrite lookup_insert_eq. cbn. done.
  - intros e -> Hd. rewrite Hr. subst s. unfold SeqNext. cbn [run idle cur eng].
    by rewrite Hd.
Qed.


Lemma seven_days_ahead (t : Z) : (t + Hour * 24 * 7 <=? t) = false.
Proof. apply Z.leb_gt. unfold Hour, Minute, Second, Nanosecond. lia. Qed.

Lemma AddLiveInfo_in_write_scope (l : LiveInfo) (w : world) (t : txn) :
  cur w = Some t -> writable t = true ->
  run (AddLiveInfo (Some l)) w
  = (ErrNil,
     set_cur w {| writable := true;
                  view := live_records l (now (eng w)) (view t);
                  dirty := true |}).
Proof.
  intros Hc Hw. unfold AddLiveInfo. rewrite run_bind_ret.
  rewrite (RWCoverTx_nested _ w t Hc Hw). cbn [run].
  unfold tx_set at 1. rewrite Hc, Hw. cbn [snd is_nil negb run].
  unfold tx_set. done.
Qed.

Lemma AddLiveInfo_outermost (l : LiveInfo) (e : engine) (d : DB) :
  db e = Some d ->
  run (AddLiveInfo (Some l)) (idle e)
  = finish d ErrNil
      (set_cur (begin true d e)
         {| writable := true; view := live_records l (now e) (items d);
            dirty := true |}).
Proof.
  intros Hd.
  pose proof (AddLiveInfo_in_write_scope l (begin true d e) _ eq_refl eq_refl)
    as Hcb.
  unfold AddLiveInfo in *. rewrite run_bind_ret in *.
  rewrite (RWCoverTx_nested _ (begin true d e) _ eq_refl eq_refl) in Hcb.
  rewrite (RWCoverTx_outermost _ e d Hd). by rewrite Hcb.
Qed.

(** C4.  For a non-nil [liveInfo], when [AddLiveInfo] returns nil a reader
    on the chain sees both records: the user info under [UserInfoKey mid]
    without expiry and the live info under [CurrentLiveKey mid] expiring
    seven days from now; when it returns an error a reader sees what it
    saw before.  On a chain without a transaction both writes are made in
    one transaction, committed once. *)
Theorem AddLiveInfo_atomic (l : LiveInfo) (w : world) :
  let mid := UserInfo_Mid (LiveInfo_UserInfo l) in
  UserInfoKey mid <> CurrentLiveKey mid ->
  let r := run (AddLiveInfo (Some l)) w in
  (r.1 = ErrNil ->
   visible r.2 (UserInfoKey mid)
   = Some {| ival := UserInfo_ToString (LiveInfo_UserInfo l);
             deadline := None |} /\
   visible r.2 (CurrentLiveKey mid)
   = Some {| ival := LiveInfo_ToString l;
             deadline := Some (now (eng w) + Hour * 24 * 7) |}) /\
  (r.1 <> ErrNil -> forall k : string, visible r.2 k = visible w k) /\
  (forall e : engine,
      w = idle e ->
      cur r.2 = None /\
      (r.1 = ErrNil ->
       opened (eng r.2) = S (opened e) /\
       commits (eng r.2) = S (commits e) /\
       rollbacks (eng r.2) = rollbacks e) /\
      (r.1 <> ErrNil -> db (eng r.2) = db e /\ commits (eng r.2) = commits e)).
Proof.
  intros mid Hne r.
  assert (Hu : forall (t : Z) (m : store),
             live t (live_records l t m) (UserInfoKey mid)
             = Some {| ival := UserInfo_ToString (LiveInfo_UserInfo l);
                       deadline := None |}).
  { intros t m. unfold live, live_records. fold mid.
    rewrite lookup_insert_ne by done. by rewrite lookup_insert_eq. }
  assert (Hl : forall (t : Z) (m : store),
             live t (live_records l t m) (CurrentLiveKey mid)
             = Some {| ival := LiveInfo_ToString l;
                       deadline := Some (t + Hour * 24 * 7) |}).
  { intros t m. unfold live, live_records. fold mid.
    rewrite lookup_insert_eq. unfold expired. cbn.
    by rewrite seven_days_ahead. }
  destruct (cur w) as [t|] eqn:Hc; [destruct (writable t) eqn:Hw|].
  - assert (Hr : r = (ErrNil, set_cur w {| writable := true;
                        view := live_records l (now (eng w)) (view t);
                        dirty := true |}))
      by (by apply AddLiveInfo_in_write_scope).
    rewrite Hr. split; [|split; [done|]].
    + intros _. unfold visible. cbn. by rewrite Hu, Hl.
    + intros e ->. done.
  - assert (Hr : r = (ErrTxNotWritable, w)).
    { subst r. unfold AddLiveInfo. rewrite run_bind_ret.
      by rewrite (RWCoverTx_in_read_scope _ w t Hc Hw). }
    rewrite Hr. split; [done|]. split; [done|]. intros e ->. done.
  - destruct w as [e c]. cbn in Hc. subst c. fold (idle e) in *.
    destruct (db e) as [d|] eqn:Hd.
    + assert (Hr : r = finish d ErrNil
                         (set_cur (begin true d e)
                            {| writable := true;
                               view := live_records l (now e) (items d);
                               dirty := true |}))
        by (by apply AddLiveInfo_outermost).
      rewrite Hr. unfold finish, commit. cbn.
      destruct (disk_fault e) as [msg|] eqn:Hf;
        [destruct (persist d) eqn:Hp|]; cbn.
      * split; [done|]. split.
        { intros _ k. unfold visible, stored. cbn. by rewrite Hd. }
        intros e' [= <-]. by rewrite Hd.
      * split; [|split; [done|]].
        { intros _. unfold visible, stored. cbn. by rewrite Hu, Hl. }
        intros e' [= <-]. done.
      * split; [|split; [done|]].
        { intros _. unfold visible, stored. cbn. by rewrite Hu, Hl. }
        intros e' [= <-]. done.
    + assert (Hr : r = (ErrNotInitialized, idle e)).
      { subst r. unfold AddLiveInfo. rewrite run_bind_ret.
        by rewrite (RWCoverTx_not_initialized _ e Hd). }
      rewrite Hr. split; [done|]. split; [done|]. intros e' [= <-]. done.
Qed.

(** ** Deletions *)

Lemma lookup_without (ks : list string) (m : store) (k : string) :
  without ks m !! k = if bool_decide (k ∈ ks) then None else m !! k.
Proof.
  unfold without. revert m.
  induction ks as [|a ks IH]; intros m; cbn [fold_left].
  - case_bool_decide; [set_solver|done].
  - rewrite IH. repeat case_bool_decide; try done.
    + set_solver.
    + match goal with H : k ∈ a :: ks |- _ => apply elem_of_cons in H as [->|?] end;
        [by rewrite lookup_delete_eq|done].
    + rewrite lookup_delete_ne; [done|set_solver].
Qed.

Lemma tx_delete_in_write_scope (k : string) (w : world) (t : txn) :
  cur w = Some t -> writable t = true ->
  exists (v : string) (err : error) (dirt : bool),
    tx_delete k w
    = ((v, err),
       set_cur w {| writable := true; view := delete k (view t);
                    dirty := dirt |}) /\
    tolerable err /\
    (err = ErrNil <-> live (now (eng w)) (view t) k <> None).
Proof.
  intros Hc Hw. unfold tx_delete, live. rewrite Hc, Hw.
  destruct (view t !! k) as [it|] eqn:L.
  - destruct (expired (now (eng w)) it).
    + exists ""%string, ErrNotFound, true. unfold tolerable. naive_solver.
    + exists (ival it), ErrNil, true. unfold tolerable. naive_solver.
  - exists ""%string, ErrNotFound, (dirty t). rewrite (delete_id _ _ L).
    destruct w as [g c], t as [wr vw dt]. cbn in *. subst.
    unfold tolerable. naive_solver.
Qed.

Lemma not_tolerable_iff (e : error) :
  negb (is_nil e) && negb (bool_decide (e = ErrNotFound)) = true
  <-> ~ tolerable e.
Proof.
  unfold tolerable.
  destruct e; cbn; try case_bool_decide; split; intros H';
    try done; try (by destruct H'; auto); by intros [|].
Qed.

Lemma first_failure_tolerable (errs : list error) :
  (first_failure errs = ErrNil <-> Forall tolerable errs) /\
  first_failure errs <> ErrNotFound /\
  (first_failure errs <> ErrNil ->
   first_failure errs ∈ errs /\ ~ tolerable (first_failure errs)).
Proof.
  induction errs as [|e errs (IH1 & IH2 & IH3)]; cbn [first_failure].
  - split; [done|]. split; done.
  - destruct (negb (is_nil e) && negb (bool_decide (e = ErrNotFound))) eqn:Hh.
    + apply not_tolerable_iff in Hh. split; [|split].
      * split; [intros ->; destruct Hh; by left|].
        intros F. by inversion F.
      * intros ->. apply Hh. by right.
      * intros _. split; [apply list_elem_of_here|done].
    + assert (He : tolerable e).
      { destruct (decide (e = ErrNil)) as [->|N1]; [by left|].
        destruct (decide (e = ErrNotFound)) as [->|N2]; [by right|].
        assert (Hn : ~ tolerable e) by (by intros []).
        apply not_tolerable_iff in Hn. congruence. }
      split; [|split; [done|]].
      * rewrite IH1. split; [by constructor|]. intros F. by inversion F.
      * intros N. destruct (IH3 N) as [Hin Hnt].
        split; [by apply list_elem_of_further|done].
Qed.

Ltac delete_step k T :=
  match goal with
  | |- context [tx_delete k ?w] =>
      let v := fresh "v" in
      let err := fresh "err" in
      let dirt := fresh "dirt" in
      let R := fresh "R" in
      destruct (tx_delete_in_write_scope k w _ eq_refl eq_refl)
        as (v & err & dirt & R & T & _);
      rewrite R; clear R;
      cbn [run set_cur eng cur view writable snd fst app]
  end.

Lemma ClearByMid_in_write_scope (mid : Z) (w : world) (t : txn) :
  cur w = Some t -> writable t = true ->
  exists dirt : bool,
    run (ClearByMid mid) w
    = (ErrNil,
       set_cur w {| writable := true; view := without (cleared mid) (view t);
                    dirty := dirt |}).
Proof.
  intros Hc Hw. unfold ClearByMid. rewrite (RWCoverTx_nested _ w t Hc Hw).
  destruct w as [g c], t as [wr vw dt]. cbn in Hc, Hw. subst c wr.
  cbn [run app].
  delete_step (CurrentLiveKey mid) T1.
  delete_step (CurrentNewsKey mid) T2.
  delete_step (UidFirstTimestamp mid) T3.
  delete_step (UserInfoKey mid) T4.
  delete_step (NotLiveKey mid) T5.
  match goal with
  | |- context [first_failure ?l] =>
      assert (F : first_failure l = ErrNil)
        by (apply (proj2 (proj1 (first_failure_tolerable l)));
            repeat (apply List.Forall_cons; [assumption|]);
            apply List.Forall_nil)
  end.
  rewrite F. by eexists.
Qed.

Lemma ClearByMid_outermost (mid : Z) (e : engine) (d : DB) :
  db e = Some d ->
  exists dirt : bool,
    run (ClearByMid mid) (idle e)
    = finish d ErrNil
        (set_cur (begin true d e)
           {| writable := true; view := without (cleared mid) (items d);
              dirty := dirt |}).
Proof.
  intros Hd.
  destruct (ClearByMid_in_write_scope mid (begin true d e) _ eq_refl eq_refl)
    as (dirt & Hcb).
  exists dirt. unfold ClearByMid in *.
  rewrite (RWCoverTx_nested _ (begin true d e) _ eq_refl eq_refl) in Hcb.
  rewrite (RWCoverTx_outermost _ e d Hd). by rewrite Hcb.
Qed.

Lemma delete_one_outermost (k : string) (e : engine) (d : DB) :
  db e = Some d ->
  let r := run (RWCoverTx (r <- TxDelete k ;; Ret (snd r))) (idle e) in
  (stored e k = None -> r.1 = ErrNotFound /\ db (eng r.2) = db e) /\
  (stored e k <> None -> disk_fault e = None ->
   r.1 = ErrNil /\ stored (eng r.2) k = None).
Proof.
  intros Hd r. subst r. rewrite (RWCoverTx_outermost _ e d Hd).
  unfold stored, live. rewrite Hd. cbn [run]. unfold tx_delete.
  cbn [begin cur eng writable view now].
  destruct (items d !! k) as [it|] eqn:L; [destruct (expired (now e) it)|];
    cbn [fst snd]; unfold finish; cbn [cur set_cur writable is_nil].
  - split; [intros _; cbn; by rewrite Hd|done].
  - split; [done|]. intros _ Hf. unfold commit. cbn. rewrite Hf. cbn.
    by rewrite lookup_delete_eq.
  - split; [intros _; cbn; by rewrite Hd|done].
Qed.

Lemma DeleteNewsAndLiveInfo_news_present (mid : Z) (e : engine) (d : DB) :
  db e = Some d ->
  CurrentLiveKey mid <> CurrentNewsKey mid ->
  stored e (CurrentNewsKey mid) <> None ->
  disk_fault e = None ->
  let r := run (DeleteNewsAndLiveInfo mid) (idle e) in
  r.1 = ErrNil /\
  stored (eng r.2) (CurrentLiveKey mid) = None /\
  stored (eng r.2) (CurrentNewsKey mid) = None.
Proof.
  intros Hd Hne Hnews Hf r. subst r. unfold DeleteNewsAndLiveInfo.
  rewrite (RWCoverTx_outermost _ e d Hd). cbn [run].
  destruct (tx_delete_in_write_scope (CurrentLiveKey mid) (begin true d e)
              _ eq_refl eq_refl) as (v1 & err1 & dirt1 & R1 & T1 & _).
  rewrite R1. cbn [snd].
  destruct (negb (is_nil err1) && negb (bool_decide (err1 = ErrNotFound)))
    eqn:Hh; [by apply not_tolerable_iff in Hh|].
  cbn [run].
  match goal with
  | |- context [tx_delete (CurrentNewsKey mid) ?w] =>
      destruct (tx_delete_in_write_scope (CurrentNewsKey mid) w _
                  eq_refl eq_refl) as (v2 & err2 & dirt2 & R2 & T2 & N2)
  end.
  rewrite R2. cbn [set_cur eng cur view writable now begin] in N2.
  assert (err2 = ErrNil) as ->.
  { apply N2. unfold stored in Hnews. rewrite Hd in Hnews.
    unfold live in *. by rewrite lookup_delete_ne. }
  cbn [fst snd]. unfold finish, commit. cbn. rewrite Hf. cbn.
  unfold stored, live. cbn.
  rewrite lookup_delete_eq, lookup_delete_ne, lookup_delete_eq by done. done.
Qed.

(** C3, as amended.  [ClearByMid] attempts its five deletes whatever each
    of them returns, takes an absent key for a success, and returns only
    an error that is neither nil nor [ErrNotFound]: on an initialised
    engine it returns nil unless the commit fails, and after a nil return
    none of the five keys is there while every other key is as before.
    [DeleteLiveInfo] and [DeleteNewsInfo] return what the engine's delete
    returns: [ErrNotFound] when the key is absent, leaving the store as it
    was, and nil when it is there, after which it is gone.
    [DeleteNewsAndLiveInfo] returns nil and leaves neither key when the
    news record is there, whether the live record is there or not. *)
Theorem deletions_and_absent_keys (mid : Z) (e : engine) (d : DB) :
  db e = Some d ->
  (let r := run (ClearByMid mid) (idle e) in
   (r.1 = ErrNil \/ exists msg, disk_fault e = Some msg /\ r.1 = ErrNew msg) /\
   (disk_fault e = None -> r.1 = ErrNil) /\
   (r.1 = ErrNil ->
    forall k : string,
      stored (eng r.2) k
      = if bool_decide (k ∈ cleared mid) then None else stored e k)) /\
  (forall errs : list error,
      (first_failure errs = ErrNil <-> Forall tolerable errs) /\
      first_failure errs <> ErrNotFound /\
      (first_failure errs <> ErrNil ->
       first_failure errs ∈ errs /\ ~ tolerable (first_failure errs))) /\
  (let r := run (DeleteLiveInfo mid) (idle e) in
   (stored e (CurrentLiveKey mid) = None ->
    r.1 = ErrNotFound /\ db (eng r.2) = db e) /\
   (stored e (CurrentLiveKey mid) <> None -> disk_fault e = None ->
    r.1 = ErrNil /\ stored (eng r.2) (CurrentLiveKey mid) = None)) /\
  (let r := run (DeleteNewsInfo mid) (idle e) in
   (stored e (CurrentNewsKey mid) = None ->
    r.1 = ErrNotFound /\ db (eng r.2) = db e) /\
   (stored e (CurrentNewsKey mid) <> None -> disk_fault e = None ->
    r.1 = ErrNil /\ stored (eng r.2) (CurrentNewsKey mid) = None)) /\
  (CurrentLiveKey mid <> CurrentNewsKey mid ->
   stored e (CurrentNewsKey mid) <> None ->
   disk_fault e = None ->
   let r := run (DeleteNewsAndLiveInfo mid) (idle e) in
   r.1 = ErrNil /\
   stored (eng r.2) (CurrentLiveKey mid) = None /\
   stored (eng r.2) (CurrentNewsKey mid) = None).
Proof.
  intros Hd. split; [|split; [|split; [|split]]].
  - destruct (ClearByMid_outermost mid e d Hd) as (dirt & Hr).
    rewrite Hr. unfold finish, commit. cbn -[without cleared].
    destruct (disk_fault e) as [msg|] eqn:Hf;
      [destruct (persist d && dirt)|]; cbn -[without cleared].
    + split; [right; by exists msg|]. split; done.
    + split; [by left|]. split; [done|]. intros _ k.
      unfold stored, live. cbn -[without cleared].
      rewrite Hd, lookup_without.
      by destruct (bool_decide (k ∈ cleared mid)).
    + split; [by left|]. split; [done|]. intros _ k.
      unfold stored, live. cbn -[without cleared].
      rewrite Hd, lookup_without.
      by destruct (bool_decide (k ∈ cleared mid)).
  - apply first_failure_tolerable.
  - by apply (delete_one_outermost (CurrentLiveKey mid) e d).
  - by apply (delete_one_outermost (CurrentNewsKey mid) e d).
  - intros. by apply (DeleteNewsAndLiveInfo_news_present mid e d).
Qed.

End StateManagerFacts.

(** * The repository on sample keys and records *)

Lemma deletions_and_absent_keys_witness :
  db (fresh 0) = Some {| persist := false; items := ∅ |} /\
  (run (ClearByMid (K := sample_keys) 42) (idle (fresh 0))).1 = ErrNil.
Proof.
  split; [reflexivity|].
  destruct (deletions_and_absent_keys (K := sample_keys) 42 (fresh 0)
              {| persist := false; items := ∅ |} eq_refl)
    as ((_ & Hnil & _) & _).
  apply Hnil. reflexivity.
Defined.

(** C3 as it is stated fails for the single-record deletes: on an
    initialised engine that holds no live record and no news record for
    producer 42, [DeleteLiveInfo] and [DeleteNewsInfo] return
    [ErrNotFound], not nil. *)
Lemma single_delete_of_absent_key_is_not_found :
  stored (fresh 0) (CurrentLiveKey (KeySet := sample_keys) 42) = None /\
  stored (fresh 0) (CurrentNewsKey (KeySet := sample_keys) 42) = None /\
  (run (DeleteLiveInfo (K := sample_keys) 42) (idle (fresh 0))).1
  = ErrNotFound /\
  (run (DeleteNewsInfo (K := sample_keys) 42) (idle (fresh 0))).1
  = ErrNotFound /\
  ErrNotFound <> ErrNil.
Proof. vm_compute. repeat split. discriminate. Qed.

(** The second delete of [DeleteNewsAndLiveInfo] has no such tolerance as
    its first: with a live record and no news record for producer 42 the
    call returns [ErrNotFound] and the live record stays. *)
Example DeleteNewsAndLiveInfo_without_news :
  let e := holding 0 {[ "CurrentLive:42"%string :=
                          {| ival := "on"%string; deadline := None |} ]} in
  let r := run (DeleteNewsAndLiveInfo (K := sample_keys) 42) (idle e) in
  r.1 = ErrNotFound /\
  stored (eng r.2) "CurrentLive:42"
  = Some {| ival := "on"%string; deadline := None |}.
Proof. vm_compute. repeat split. Qed.

Lemma AddLiveInfo_atomic_witness :
  let l : LiveInfo (Records := sample_records) :=
    ((42, "name"%string), "title"%string) in
  let r := run (AddLiveInfo (K := sample_keys) (R := sample_records) (Some l))
               (idle (fresh 5)) in
  UserInfoKey (KeySet := sample_keys) 42
  <> CurrentLiveKey (KeySet := sample_keys) 42 /\
  visible r.2 "UserInfo:42"
  = Some {| ival := "user:42:name"%string; deadline := None |} /\
  visible r.2 "CurrentLive:42"
  = Some {| ival := "live:42:name:title"%string;
            deadline := Some (5 + Hour * 24 * 7) |}.
Proof.
  intros l r.
  assert (Hne : UserInfoKey (KeySet := sample_keys) 42
                <> CurrentLiveKey (KeySet := sample_keys) 42)
    by (intros H; vm_compute in H; discriminate H).
  split; [exact Hne|].
  apply (AddLiveInfo_atomic (K := sample_keys) (R := sample_records) l
           (idle (fresh 5)) Hne).
  reflexivity.
Defined.

Example AddLiveInfo_on_sample :
  let l : LiveInfo (Records := sample_records) :=
    ((42, "name"%string), "title"%string) in
  let r := run (AddLiveInfo (K := sample_keys) (R := sample_records) (Some l))
               (idle (fresh 5)) in
  r.1 = ErrNil /\
  (run (read "UserInfo:42") r.2).1 = ("user:42:name"%string, ErrNil) /\
  (run (read "CurrentLive:42") r.2).1 = ("live:42:name:title"%string, ErrNil) /\
  (run (read_ttl "CurrentLive:42") r.2).1 = (Hour * 24 * 7, ErrNil) /\
  (run (read_ttl "UserInfo:42") r.2).1 = (-1, ErrNil).
Proof. vm_compute. repeat split. Qed.

Lemma CheckDynamicId_true_iff_not_found_witness :
  (run (CheckDynamicId (K := sample_keys) 7) (idle (fresh 0))).1 = true.
Proof.
  apply (CheckDynamicId_true_iff_not_found (K := sample_keys) 7
           (idle (fresh 0))).
  reflexivity.
Defined.

Example CheckDynamicId_on_sample :
  let r := run (MarkDynamicId (K := sample_keys) 7) (idle (fresh 0)) in
  r.1 = (false, ErrNil) /\
  (run (CheckDynamicId (K := sample_keys) 7) r.2).1 = false /\
  (run (CheckDynamicId (K := sample_keys) 8) r.2).1 = true /\
  (run (CheckDynamicId (K := sample_keys) 7) (idle (boot 0))).1 = false.
Proof. vm_compute. repeat split. Qed.

Lemma IncNotLiveCount_zero_on_error_witness :
  (run (SeqNext "NotLive:42") (idle (boot 0))).1.2 <> ErrNil /\
  (run (IncNotLiveCount (K := sample_keys) 42) (idle (boot 0))).1 = 0.
Proof.
  assert (H : (run (SeqNext "NotLive:42") (idle (boot 0))).1.2 <> ErrNil)
    by (vm_compute; discriminate).
  split; [exact H|].
  destruct (IncNotLiveCount_zero_on_error (K := sample_keys) 42
              (idle (boot 0))) as (_ & Hzero & _).
  apply Hzero. exact H.
Defined.

Example IncNotLiveCount_counts :
  let r1 := run (IncNotLiveCount (K := sample_keys) 42) (idle (fresh 0)) in
  let r2 := run (IncNotLiveCount (K := sample_keys) 42) r1.2 in
  let r3 := run (IncNotLiveCount (K := sample_keys) 42) r2.2 in
  r1.1 = 1 /\ r2.1 = 2 /\ r3.1 = 3.
Proof. vm_compute. repeat split. Qed.

(** * Write scopes in general *)

Lemma visible_base (w : world) (k : string) :
  visible w k = live (now (eng w)) (base w) k.
Proof.
  unfold visible, base, stored. destruct (cur w); [done|].
  destruct (db (eng w)); [done|]. unfold live. by rewrite lookup_empty.
Qed.

Lemma live_insert (t : Z) (m : store) (k k' : string) (it : item) :
  live t (<[k := it]> m) k'
  = if bool_decide (k' = k) then unexpired t it else live t m k'.
Proof.
  unfold live, unexpired. case_bool_decide as E.
  - subst k'. by rewrite lookup_insert_eq.
  - by rewrite lookup_insert_ne.
Qed.

Lemma live_delete (t : Z) (m : store) (k k' : string) :
  live t (delete k m) k' = if bool_decide (k' = k) then None else live t m k'.
Proof.
  unfold live. case_bool_decide as E.
  - subst k'. by rewrite lookup_delete_eq.
  - by rewrite lookup_delete_ne.
Qed.

(** What a cover call in write mode does with a callback that, run in a
    write scope, succeeds after turning the view [m] into [F now m] and
    setting its captured variables to [res now m]. *)
Lemma write_cover_cases {A : Type} (cb : prog (A * error)) (a0 : A)
    (F : Z -> store -> store) (res : Z -> store -> A) :
  (forall (w : world) (t : txn),
      cur w = Some t -> writable t = true ->
      exists dirt : bool,
        run cb w
        = ((res (now (eng w)) (view t), ErrNil),
           set_cur w {| writable := true; view := F (now (eng w)) (view t);
                        dirty := dirt |})) ->
  forall w : world,
    let r := run (Cover true a0 cb) w in
    now (eng r.2) = now (eng w) /\
    (cur r.2 = None <-> cur w = None) /\
    (r.1.2 = ErrNil ->
     base r.2 = F (now (eng w)) (base w) /\
     r.1.1 = res (now (eng w)) (base w)) /\
    (r.1.2 <> ErrNil -> base r.2 = base w) /\
    (forall (e : engine) (d : DB),
        w = idle e -> db e = Some d ->
        r.1.1 = res (now e) (items d) /\
        (disk_fault e = None \/ persist d = false -> r.1.2 = ErrNil)) /\
    (forall e : engine,
        w = idle e -> db e = None -> r.1 = (a0, ErrNotInitialized)) /\
    (forall t : txn,
        cur w = Some t -> writable t = false ->
        r = ((a0, ErrTxNotWritable), w)).
Proof.
  intros Hcb w r. subst r. cbn [run].
  destruct (cur w) as [t|] eqn:Hc; [destruct (writable t) eqn:Hw|].
  - cbn [andb negb]. destruct (Hcb w t Hc Hw) as (dirt & ->).
    unfold base. cbn. rewrite Hc.
    split; [done|]. split; [by split|]. split; [done|]. split; [done|].
    split; [by intros g d ->|]. split; [by intros g ->|].
    intros t' [= <-]. congruence.
  - cbn [andb negb]. unfold base. cbn. rewrite Hc.
    split; [done|]. split; [by split|]. split; [done|]. split; [done|].
    split; [by intros g d ->|]. split; [by intros g ->|]. done.
  - destruct w as [e c]. cbn in Hc. subst c. cbn [eng].
    destruct (db e) as [d|] eqn:Hd.
    + destruct (Hcb (begin true d e) _ eq_refl eq_refl) as (dirt & ->).
      unfold finish, commit. cbn [cur set_cur writable is_nil eng begin].
      cbn [disk_fault dirty]. unfold base.
      destruct (disk_fault e) as [msg|] eqn:Hf;
        [destruct (persist d && dirt) eqn:Hp|]; cbn; rewrite ?Hd.
      * split; [done|]. split; [by split|]. split; [done|].
        split; [by intros _|]. split; [|split; [|done]].
        -- intros g d' [= <-]. rewrite Hd. intros [= <-]. split; [done|].
           intros [|Hnp]; [congruence|]. by rewrite Hnp in Hp.
        -- intros g [= <-]. by rewrite Hd.
      * split; [done|]. split; [by split|]. split; [done|].
        split; [done|]. split; [|split; [|done]].
        -- intros g d' [= <-]. rewrite Hd. by intros [= <-].
        -- intros g [= <-]. by rewrite Hd.
      * split; [done|]. split; [by split|]. split; [done|].
        split; [done|]. split; [|split; [|done]].
        -- intros g d' [= <-]. rewrite Hd. by intros [= <-].
        -- intros g [= <-]. by rewrite Hd.
    + unfold base. cbn. rewrite Hd.
      split; [done|]. split; [by split|]. split; [done|]. split; [done|].
      split; [|split; [|done]].
      * intros g d' [= <-]. by rewrite Hd.
      * done.
Qed.

Lemma run_bind_snd {A : Type} (m : prog (A * error)) (w : world) :
  run (r <- m ;; Ret (snd r)) w = ((run m w).1.2, (run m w).2).
Proof. cbn [run]. by destruct (run m w) as [[a err] w']. Qed.

(** The same for a callback without captured variables. *)
Lemma write_scope_cases (f : prog error) (F : Z -> store -> store) :
  (forall (w : world) (t : txn),
      cur w = Some t -> writable t = true ->
      exists dirt : bool,
        run f w
        = (ErrNil,
           set_cur w {| writable := true; view := F (now (eng w)) (view t);
                        dirty := dirt |})) ->
  forall w : world,
    let r := run (RWCoverTx f) w in
    now (eng r.2) = now (eng w) /\
    (cur r.2 = None <-> cur w = None) /\
    (r.1 = ErrNil -> base r.2 = F (now (eng w)) (base w)) /\
    (r.1 <> ErrNil -> base r.2 = base w) /\
    (forall (e : engine) (d : DB),
        w = idle e -> db e = Some d ->
        disk_fault e = None \/ persist d = false -> r.1 = ErrNil) /\
    (forall e : engine, w = idle e -> db e = None -> r.1 = ErrNotInitialized) /\
    (forall t : txn,
        cur w = Some t -> writable t = false -> r = (ErrTxNotWritable, w)).
Proof.
  intros Hf w r.
  assert (Hcb : forall (w : world) (t : txn),
             cur w = Some t -> writable t = true ->
             exists dirt : bool,
               run (plain f) w
               = ((tt, ErrNil),
                  set_cur w {| writable := true;
                               view := F (now (eng w)) (view t);
                               dirty := dirt |})).
  { intros w' t Hc Hw. destruct (Hf w' t Hc Hw) as (dirt & E).
    exists dirt. unfold plain. cbn [run]. by rewrite E. }
  pose proof (write_cover_cases (plain f) tt F (fun _ _ => tt) Hcb w) as H.
  cbv zeta in H. destruct H as (H1 & H2 & H3 & H4 & H5 & H6 & H7).
  assert (Er : r = ((run (Cover true tt (plain f)) w).1.2,
                    (run (Cover true tt (plain f)) w).2)).
  { subst r. unfold RWCoverTx. apply run_bind_snd. }
  rewrite Er. cbn [fst snd].
  split; [done|]. split; [done|]. split; [intros E; by apply H3|].
  split; [done|].
  split; [intros e d Hw Hd Hx; by apply (proj2 (H5 e d Hw Hd))|].
  split; [intros e Hw Hd; by rewrite (H6 e Hw Hd)|].
  intros t Hc Hw. by rewrite (H7 t Hc Hw).
Qed.

(** A callback that is one [tx.Set] and returns its error. *)
Lemma set_one_cases (k v : string) (o : option SetOptions) (w : world) :
  let r := run (RWCoverTx (s <- TxSet k v o ;; Ret (snd s))) w in
  (r.1 = ErrNil ->
   forall k' : string,
     visible r.2 k'
     = if bool_decide (k' = k)
       then unexpired (now (eng w)) (item_of (now (eng w)) v o)
       else visible w k') /\
  (r.1 <> ErrNil -> forall k' : string, visible r.2 k' = visible w k') /\
  (forall (e : engine) (d : DB),
      w = idle e -> db e = Some d ->
      disk_fault e = None \/ persist d = false -> r.1 = ErrNil) /\
  (forall e : engine, w = idle e -> db e = None -> r.1 = ErrNotInitialized) /\
  (forall t : txn,
      cur w = Some t -> writable t = false -> r = (ErrTxNotWritable, w)).
Proof.
  intros r.
  pose proof (write_scope_cases (s <- TxSet k v o ;; Ret (snd s))
                (fun t m => <[k := item_of t v o]> m)) as H.
  cbv zeta in H. destruct (H ltac:(
    intros w' t Hc Hw; exists true; cbn [run]; unfold tx_set;
    rewrite Hc, Hw; reflexivity) w) as (H1 & H2 & H3 & H4 & H5 & H6 & H7).
  fold r in H1, H2, H3, H4, H5, H6, H7.
  split; [|split; [|done]].
  - intros E k'. rewrite !visible_base, H1, (H3 E). apply live_insert.
  - intros E k'. by rewrite !visible_base, H1, (H4 E).
Qed.

(** * Single-record writers *)

Section Writers.

Context {K : KeySet} {R : Records}.

(** X1.  [AddUserInfo] with a record: after a nil return a reader on the
    chain finds the record's text under [UserInfoKey Mid], without expiry,
    and every other key as before; after an error return it finds
    everything as before.  It returns nil on an initialised engine that
    can persist, [ErrNotInitialized] before initialisation and
    [ErrTxNotWritable] within a read scope. *)
Theorem AddUserInfo_stores (u : UserInfo) (w : world) :
  let key := UserInfoKey (UserInfo_Mid u) in
  let r := run (AddUserInfo (Some u)) w in
  (r.1 = ErrNil ->
   forall k : string,
     visible r.2 k
     = if bool_decide (k = key)
       then Some {| ival := UserInfo_ToString u; deadline := None |}
       else visible w k) /\
  (r.1 <> ErrNil -> forall k : string, visible r.2 k = visible w k) /\
  (forall (e : engine) (d : DB),
      w = idle e -> db e = Some d ->
      disk_fault e = None \/ persist d = false -> r.1 = ErrNil) /\
  (forall e : engine, w = idle e -> db e = None -> r.1 = ErrNotInitialized) /\
  (forall t : txn,
      cur w = Some t -> writable t = false -> r = (ErrTxNotWritable, w)).
Proof.
  intros key r.
  exact (set_one_cases key (UserInfo_ToString u) None w).
Qed.

(** X2.  [AddUserStat] with a record stores its text under
    [UserStatKey Mid] with the expiry the caller's options ask for: none
    for nil options or options that do not expire, otherwise [TTL] from
    now, so that a record written with a TTL that is not positive is not
    found by any reader.  Other keys are as before, and an error return
    leaves everything as before. *)
Theorem AddUserStat_stores (u : UserStat) (opt : option SetOptions)
    (w : world) :
  let key := UserStatKey (UserStat_Mid u) in
  let t := now (eng w) in
  let r := run (AddUserStat (Some u) opt) w in
  (r.1 = ErrNil ->
   forall k : string,
     visible r.2 k
     = if bool_decide (k = key)
       then match opt with
            | Some o =>
                if Expires o
                then if TTL o <=? 0 then None
                     else Some {| ival := UserStat_ToString u;
                                  deadline := Some (t + TTL o) |}
                else Some {| ival := UserStat_ToString u; deadline := None |}
            | None => Some {| ival := UserStat_ToString u; deadline := None |}
            end
       else visible w k) /\
  (r.1 <> ErrNil -> forall k : string, visible r.2 k = visible w k) /\
  (forall (e : engine) (d : DB),
      w = idle e -> db e = Some d ->
      disk_fault e = None \/ persist d = false -> r.1 = ErrNil).
Proof.
  intros key t r.
  destruct (set_one_cases key (UserStat_ToString u) opt w)
    as (H1 & H2 & H3 & _).
  split; [|split; [exact H2|exact H3]].
  intros E k. etrans; [exact (H1 E k)|]. case_bool_decide; [|done].
  unfold unexpired, expired, item_of. fold t.
  destruct opt as [[ex ttl]|]; [|done]. cbn.
  destruct ex; [|done]. cbn.
  destruct (Z.leb_spec (t + ttl) t), (Z.leb_spec ttl 0); try done; lia.
Qed.

End Writers.

Lemma AddUserInfo_stores_witness :
  let u : UserInfo (Records := sample_records) := (42, "name"%string) in
  let r := run (AddUserInfo (K := sample_keys) (R := sample_records) (Some u))
               (idle (fresh 0)) in
  r.1 = ErrNil /\
  visible r.2 "UserInfo:42"
  = Some {| ival := "user:42:name"%string; deadline := None |}.
Proof.
  intros u r.
  destruct (AddUserInfo_stores (K := sample_keys) (R := sample_records) u
              (idle (fresh 0))) as (Hs & _ & Hok & _).
  assert (E : r.1 = ErrNil).
  { apply (Hok (fresh 0) {| persist := false; items := ∅ |});
      [reflexivity|reflexivity|by left]. }
  split; [exact E|]. exact (Hs E "UserInfo:42"%string).
Defined.

Lemma AddUserStat_stores_witness :
  let u : UserStat (Records := sample_records) := (42, 7) in
  let r := run (AddUserStat (K := sample_keys) (R := sample_records) (Some u)
                  (ExpireOption (Hour * 1)))
               (idle (fresh 0)) in
  r.1 = ErrNil /\
  visible r.2 "UserStat:42"
  = Some {| ival := "stat:42:7"%string; deadline := Some (Hour * 1) |}.
Proof.
  intros u r.
  destruct (AddUserStat_stores (K := sample_keys) (R := sample_records) u
              (ExpireOption (Hour * 1)) (idle (fresh 0))) as (Hs & _ & Hok).
  assert (E : r.1 = ErrNil).
  { apply (Hok (fresh 0) {| persist := false; items := ∅ |});
      [reflexivity|reflexivity|by left]. }
  split; [exact E|]. exact (Hs E "UserStat:42"%string).
Defined.

(** * Operations on a healthy engine *)

Lemma healthy_at_time (t : Z) (e : engine) :
  healthy e -> healthy (at_time t e) /\ items_of (at_time t e) = items_of e.
Proof. intros (d & Hd & Hf). split; [by exists d|done]. Qed.

Lemma visible_idle (e : engine) (k : string) :
  visible (idle e) k = live (now e) (items_of e) k.
Proof. by rewrite visible_base. Qed.

(** A cover call in write mode on a healthy engine and a chain without a
    transaction commits what its callback did. *)
Lemma write_cover_healthy {A : Type} (cb : prog (A * error)) (a0 : A)
    (F : Z -> store -> store) (res : Z -> store -> A) (e : engine) :
  (forall (w : world) (t : txn),
      cur w = Some t -> writable t = true ->
      exists dirt : bool,
        run cb w
        = ((res (now (eng w)) (view t), ErrNil),
           set_cur w {| writable := true; view := F (now (eng w)) (view t);
                        dirty := dirt |})) ->
  healthy e ->
  exists e' : engine,
    run (Cover true a0 cb) (idle e)
    = ((res (now e) (items_of e), ErrNil), idle e') /\
    healthy e' /\ items_of e' = F (now e) (items_of e) /\ now e' = now e /\
    commits e' = S (commits e) /\ rollbacks e' = rollbacks e.
Proof.
  intros Hcb (d & Hd & Hf). unfold items_of. cbn [run idle cur eng].
  rewrite Hd. destruct (Hcb (begin true d e) _ eq_refl eq_refl) as (dirt & ->).
  unfold finish, commit. cbn [cur set_cur writable is_nil eng begin].
  cbn [disk_fault dirty now view].
  assert (Hc : (match disk_fault e with
                | Some msg =>
                    if persist d && dirt
                    then (ErrNew msg, discard (eng (begin true d e)))
                    else (ErrNil,
                          install d {| writable := true;
                                       view := F (now e) (items d);
                                       dirty := dirt |}
                            (eng (begin true d e)))
                | None =>
                    (ErrNil,
                     install d {| writable := true;
                                  view := F (now e) (items d);
                                  dirty := dirt |}
                       (eng (begin true d e)))
                end)
               = (ErrNil,
                  install d {| writable := true; view := F (now e) (items d);
                               dirty := dirt |} (eng (begin true d e)))).
  { destruct Hf as [->| ->]; [done|]. by destruct (disk_fault e). }
  cbn [begin eng] in Hc. rewrite Hc. eexists. split; [reflexivity|].
  split; [|done]. eexists. split; [reflexivity|]. exact Hf.
Qed.

Lemma write_scope_healthy (f : prog error) (F : Z -> store -> store)
    (e : engine) :
  (forall (w : world) (t : txn),
      cur w = Some t -> writable t = true ->
      exists dirt : bool,
        run f w
        = (ErrNil,
           set_cur w {| writable := true; view := F (now (eng w)) (view t);
                        dirty := dirt |})) ->
  healthy e ->
  exists e' : engine,
    run (RWCoverTx f) (idle e) = (ErrNil, idle e') /\
    healthy e' /\ items_of e' = F (now e) (items_of e) /\ now e' = now e /\
    commits e' = S (commits e) /\ rollbacks e' = rollbacks e.
Proof.
  intros Hf Hh.
  destruct (write_cover_healthy (plain f) tt F (fun _ _ => tt) e) as
    (e' & Hr & H); [|done|].
  { intros w t Hc Hw. destruct (Hf w t Hc Hw) as (dirt & E).
    exists dirt. unfold plain. cbn [run]. by rewrite E. }
  exists e'. split; [|done]. unfold RWCoverTx. rewrite run_bind_snd.
  by rewrite Hr.
Qed.

(** A cover call in read mode on an initialised engine and a chain without
    a transaction: its callback runs on the store as it is. *)
Lemma read_cover_healthy {A : Type} (cb : prog (A * error)) (a0 : A)
    (e : engine) (d : DB) :
  db e = Some d ->
  exists e' : engine,
    run (Cover false a0 cb) (idle e)
    = ((run cb (begin false d e)).1, idle e') /\
    db e' = db e /\ disk_fault e' = disk_fault e /\ now e' = now e /\
    commits e' = commits e /\ rollbacks e' = rollbacks e.
Proof.
  intros Hd. cbn [run idle cur eng]. rewrite Hd.
  pose proof (run_read_only cb (begin false d e) _ eq_refl eq_refl) as Hro.
  destruct (run cb (begin false d e)) as [[a err] w1]. cbn in Hro. subst w1.
  eexists. split; [reflexivity|]. done.
Qed.

Lemma tx_get_begin (wr : bool) (d : DB) (e : engine) (k : string) :
  tx_get k (begin wr d e)
  = match live (now e) (items d) k with
    | Some it => (ival it, ErrNil)
    | None => (""%string, ErrNotFound)
    end.
Proof. done. Qed.

(** * Reading records *)

Lemma JsonGet_run {A : Type} (decode : string -> A * error) (key : string)
    (obj : A) (w : world) :
  let found (o : option item) : A * error :=
    match o with
    | Some it => decode (ival it)
    | None => (obj, ErrNotFound)
    end in
  run (JsonGet decode key obj) w
  = match cur w with
    | Some t => (found (live (now (eng w)) (view t) key), w)
    | None =>
        match db (eng w) with
        | Some d =>
            (found (live (now (eng w)) (items d) key),
             idle (eng (begin false d (eng w))))
        | None => ((obj, ErrNotInitialized), w)
        end
    end.
Proof.
  intros found. unfold JsonGet. cbn [run].
  destruct (cur w) as [t|] eqn:Hc.
  - cbn [andb run]. unfold tx_get. rewrite Hc. subst found.
    destruct (live (now (eng w)) (view t) key) as [it|];
      cbn [fst snd is_nil negb run]; [|done].
    by destruct (decode (ival it)).
  - destruct (db (eng w)) as [d|]; [|done].
    cbn [run]. rewrite tx_get_begin. subst found.
    destruct (live (now (eng w)) (items d) key) as [it|];
      cbn [fst snd is_nil negb run]; [|done].
    by destruct (decode (ival it)).
Qed.

Lemma get_record_run {A : Type} (decode : string -> A * error) (key : string)
    (zero : A) (w : world) :
  run (get_record decode key zero) w
  = ((if is_nil (run (JsonGet decode key zero) w).1.2
      then (Some (run (JsonGet decode key zero) w).1.1, ErrNil)
      else (None, (run (JsonGet decode key zero) w).1.2)),
     (run (JsonGet decode key zero) w).2).
Proof.
  unfold get_record.
  change (run (r <- JsonGet decode key zero ;; _) w)
    with (let '(a, w1) := run (JsonGet decode key zero) w in
          run (let '(x, err) := a in
               if negb (is_nil err) then Ret (None, err)
               else Ret (Some x, ErrNil)) w1).
  destruct (run (JsonGet decode key zero) w) as [[x err] w1].
  by destruct err.
Qed.

Lemma get_record_reads {A : Type} (decode : string -> A * error)
    (key : string) (zero : A) :
  reads_record decode key (get_record decode key zero).
Proof.
  assert (Hiff : forall p : A * error,
             (if is_nil p.2 then (Some p.1, ErrNil) else (None, p.2)).1 = None
             <-> (if is_nil p.2 then (Some p.1, ErrNil) else (None, p.2)).2
                 <> ErrNil).
  { intros [x err]. destruct err; cbn; split; try done; by intros []. }
  intros w r. subst r. rewrite get_record_run, JsonGet_run. unfold visible.
  destruct (cur w) as [t|] eqn:Hc.
  - cbn [fst snd]. rewrite Hc.
    destruct (live (now (eng w)) (view t) key) as [it|].
    + split; [apply Hiff|]. split; [done|]. split; [done|].
      split; [|done]. by intros it' [= <-].
    + cbn [fst snd is_nil]. split; [done|]. split; [done|]. split; done.
  - unfold stored. destruct (db (eng w)) as [d|] eqn:Hd.
    + cbn [fst snd idle cur eng begin db now]. rewrite Hd.
      destruct (live (now (eng w)) (items d) key) as [it|].
      * split; [apply Hiff|]. split; [done|]. split; [done|].
        split; [|done]. by intros it' [= <-].
      * cbn [fst snd is_nil]. split; [done|]. split; [done|]. split; done.
    + cbn [fst snd is_nil]. rewrite Hc, Hd.
      split; [done|]. split; [done|]. split; [by intros _ H; destruct H|].
      split; done.
Qed.

Section Reads.

Context {K : KeySet} {R : Records} {D : Decoders}.

(** X3.  The four getters read the record stored under their key: each
    returns a nil record exactly when it returns an error, changes nothing
    for any reader, returns [ErrNotFound] when no item is visible under the
    key (absent or expired) and [ErrNotInitialized] before initialisation,
    and otherwise returns what [json.Unmarshal] makes of the stored text:
    the record with nil, or nil with its error. *)
Theorem getters_read_records (mid : Z) :
  reads_record UserInfo_Unmarshal (UserInfoKey mid) (GetUserInfo mid) /\
  reads_record UserStat_Unmarshal (UserStatKey mid) (GetUserStat mid) /\
  reads_record LiveInfo_Unmarshal (CurrentLiveKey mid) (GetLiveInfo mid) /\
  reads_record NewsInfo_Unmarshal (CurrentNewsKey mid) (GetNewsInfo mid).
Proof.
  split; [|split; [|split]].
  - exact (get_record_reads UserInfo_Unmarshal (UserInfoKey mid) UserInfo_zero).
  - exact (get_record_reads UserStat_Unmarshal (UserStatKey mid) UserStat_zero).
  - exact (get_record_reads LiveInfo_Unmarshal (CurrentLiveKey mid)
             LiveInfo_zero).
  - exact (get_record_reads NewsInfo_Unmarshal (CurrentNewsKey mid)
             NewsInfo_zero).
Qed.

End Reads.

Lemma getters_read_records_witness :
  (run (GetLiveInfo (K := sample_keys) (D := sample_decoders) 42)
       (idle (fresh 0))).1
  = (None, ErrNotFound).
Proof.
  destruct (getters_read_records (K := sample_keys) (D := sample_decoders) 42)
    as (_ & _ & Hlive & _).
  destruct (Hlive (idle (fresh 0))) as (_ & _ & Hnf & _).
  apply Hnf; [reflexivity|]. intros _. discriminate.
Defined.

(** * Composite writes and round trips *)

Section RoundTrips.

Context {K : KeySet} {R : Records} {D : Decoders}.

Lemma AddNewsInfo_callback (n : NewsInfo) :
  forall (w : world) (t : txn),
    cur w = Some t -> writable t = true ->
    exists dirt : bool,
      run (r <- TxSet (UserInfoKey (UserInfo_Mid (NewsInfo_UserInfo n)))
                 (UserInfo_ToString (NewsInfo_UserInfo n)) None ;;
           if negb (is_nil (snd r)) then Ret (snd r)
           else
             r <- TxSet (CurrentNewsKey (UserInfo_Mid (NewsInfo_UserInfo n)))
                    (NewsInfo_ToString n) None ;;
             Ret (snd r)) w
      = (ErrNil,
         set_cur w {| writable := true;
                      view := (fun _ : Z => news_records n) (now (eng w))
                                (view t);
                      dirty := dirt |}).
Proof.
  intros w t Hc Hw. exists true. cbn [run].
  unfold tx_set at 1. rewrite Hc, Hw. cbn [snd is_nil negb run].
  unfold tx_set. done.
Qed.

(** X4.  [AddNewsInfo] with a record writes the news record under
    [CurrentNewsKey Mid] and the embedded user info under
    [UserInfoKey Mid], both without expiry, in one write scope: after a
    nil return a reader finds both and every other key as before; after
    an error return it finds everything as before. *)
Theorem AddNewsInfo_atomic (n : NewsInfo) (w : world) :
  let mid := UserInfo_Mid (NewsInfo_UserInfo n) in
  let r := run (AddNewsInfo (Some n)) w in
  (r.1 = ErrNil ->
   forall k : string,
     visible r.2 k
     = if bool_decide (k = CurrentNewsKey mid)
       then Some {| ival := NewsInfo_ToString n; deadline := None |}
       else if bool_decide (k = UserInfoKey mid)
       then Some {| ival := UserInfo_ToString (NewsInfo_UserInfo n);
                    deadline := None |}
       else visible w k) /\
  (r.1 <> ErrNil -> forall k : string, visible r.2 k = visible w k) /\
  (forall e : engine, w = idle e -> healthy e -> r.1 = ErrNil) /\
  (forall e : engine, w = idle e -> db e = None -> r.1 = ErrNotInitialized) /\
  (forall t : txn,
      cur w = Some t -> writable t = false -> r = (ErrTxNotWritable, w)).
Proof.
  intros mid r.
  destruct (write_scope_cases _ _ (AddNewsInfo_callback n) w)
    as (H1 & H2 & H3 & H4 & H5 & H6 & H7).
  change (run (RWCoverTx _) w) with r in H1, H2, H3, H4, H5, H6, H7.
  split; [|split; [|split; [|done]]].
  - intros E k. rewrite !visible_base, H1, (H3 E). unfold news_records.
    fold mid. rewrite !live_insert. by repeat case_bool_decide.
  - intros E k. by rewrite !visible_base, H1, (H4 E).
  - intros e Hw (d & Hd & Hf). by apply (H5 e d).
Qed.

Lemma AddNewsInfo_healthy (n : NewsInfo) (e : engine) :
  healthy e ->
  exists e' : engine,
    run (AddNewsInfo (Some n)) (idle e) = (ErrNil, idle e') /\
    healthy e' /\ items_of e' = news_records n (items_of e) /\
    now e' = now e.
Proof.
  intros Hh.
  destruct (write_scope_healthy _ _ e (AddNewsInfo_callback n) Hh)
    as (e' & Hr & H1 & H2 & H3 & _).
  by exists e'.
Qed.

Lemma AddLiveInfo_healthy (l : LiveInfo) (e : engine) :
  healthy e ->
  exists e' : engine,
    run (AddLiveInfo (Some l)) (idle e) = (ErrNil, idle e') /\
    healthy e' /\ items_of e' = live_records l (now e) (items_of e) /\
    now e' = now e.
Proof.
  intros (d & Hd & Hf). rewrite (AddLiveInfo_outermost l e d Hd).
  unfold finish, commit, items_of. cbn. rewrite Hd.
  destruct Hf as [Hf|Hp]; rewrite ?Hf, ?Hp.
  - eexists. split; [reflexivity|]. split; [|done].
    eexists. split; [reflexivity|]. by left.
  - destruct (disk_fault e) eqn:E; cbn.
    + eexists. split; [reflexivity|]. split; [|done].
      eexists. split; [reflexivity|]. by right.
    + eexists. split; [reflexivity|]. split; [|done].
      eexists. split; [reflexivity|]. by right.
Qed.

Lemma get_record_healthy {A : Type} (decode : string -> A * error)
    (key : string) (zero : A) (e : engine) :
  healthy e ->
  (run (get_record decode key zero) (idle e)).1
  = match live (now e) (items_of e) key with
    | Some it =>
        if is_nil (decode (ival it)).2
        then (Some (decode (ival it)).1, ErrNil)
        else (None, (decode (ival it)).2)
    | None => (None, ErrNotFound)
    end.
Proof.
  intros (d & Hd & _). rewrite get_record_run, JsonGet_run. unfold items_of.
  cbn [idle cur eng]. rewrite Hd. cbn [fst snd].
  by destruct (live (now e) (items d) key).
Qed.

(** X5.  What [AddLiveInfo] wrote is read back: on a healthy engine, with
    decoders that invert [ToString] on the two records and distinct keys,
    [GetUserInfo] returns the embedded user info at any later time, and
    [GetLiveInfo] returns the live info until seven days have passed and
    [ErrNotFound] from then on. *)
Theorem live_info_round_trip (l : LiveInfo) (e : engine) (t : Z) :
  let u := LiveInfo_UserInfo l in
  let mid := UserInfo_Mid u in
  healthy e ->
  UserInfoKey mid <> CurrentLiveKey mid ->
  LiveInfo_Unmarshal (LiveInfo_ToString l) = (l, ErrNil) ->
  UserInfo_Unmarshal (UserInfo_ToString u) = (u, ErrNil) ->
  let r := run (AddLiveInfo (Some l)) (idle e) in
  let later := idle (at_time t (eng r.2)) in
  r.1 = ErrNil /\
  (run (GetUserInfo mid) later).1 = (Some u, ErrNil) /\
  (run (GetLiveInfo mid) later).1
  = if t <? now e + Hour * 24 * 7 then (Some l, ErrNil)
    else (None, ErrNotFound).
Proof.
  intros u mid Hh Hne Hdl Hdu r later.
  destruct (AddLiveInfo_healthy l e Hh) as (e' & Hr & Hh' & Hi & Hn).
  subst r later. rewrite Hr. cbn [fst snd eng idle].
  destruct (healthy_at_time t e' Hh') as (Hht & Hit).
  split; [done|]. split.
  - etrans; [exact (get_record_healthy UserInfo_Unmarshal (UserInfoKey mid)
                      UserInfo_zero (at_time t e') Hht)|].
    rewrite Hit, Hi. unfold live_records. fold u mid.
    rewrite live_insert, bool_decide_eq_false_2 by done.
    rewrite live_insert, bool_decide_eq_true_2 by done.
    cbn. by rewrite Hdu.
  - etrans; [exact (get_record_healthy LiveInfo_Unmarshal (CurrentLiveKey mid)
                      LiveInfo_zero (at_time t e') Hht)|].
    rewrite Hit, Hi. unfold live_records. fold u mid.
    rewrite live_insert, bool_decide_eq_true_2 by done.
    unfold unexpired, expired. cbn.
    destruct (Z.leb_spec (now e + Hour * 24 * 7) t),
             (Z.ltb_spec t (now e + Hour * 24 * 7)); try lia.
    + done.
    + cbn. by rewrite Hdl.
Qed.

End RoundTrips.

Lemma AddNewsInfo_atomic_witness :
  let n : NewsInfo (Records := sample_records) :=
    ((42, "name"%string), "title"%string) in
  let r := run (AddNewsInfo (K := sample_keys) (R := sample_records) (Some n))
               (idle (fresh 0)) in
  r.1 = ErrNil /\
  visible r.2 "CurrentNews:42"
  = Some {| ival := "news:42:name:title"%string; deadline := None |} /\
  visible r.2 "UserInfo:42"
  = Some {| ival := "user:42:name"%string; deadline := None |}.
Proof.
  intros n r.
  destruct (AddNewsInfo_atomic (K := sample_keys) (R := sample_records) n
              (idle (fresh 0))) as (Hs & _ & Hok & _).
  assert (E : r.1 = ErrNil).
  { apply (Hok (fresh 0) eq_refl).
    exists {| persist := false; items := ∅ |}. split; [reflexivity|by left]. }
  split; [exact E|].
  split; [exact (Hs E "CurrentNews:42"%string)
         |exact (Hs E "UserInfo:42"%string)].
Defined.

Lemma live_info_round_trip_witness :
  let l : LiveInfo (Records := sample_records) :=
    ((42, "name"%string), "title"%string) in
  let r := run (AddLiveInfo (K := sample_keys) (R := sample_records) (Some l))
               (idle (fresh 0)) in
  (run (GetLiveInfo (K := sample_keys) (D := sample_decoders) 42)
       (idle (at_time (Hour * 24 * 7) (eng r.2)))).1
  = (None, ErrNotFound).
Proof.
  intros l r.
  assert (Hh : healthy (fresh 0)).
  { exists {| persist := false; items := ∅ |}. split; [reflexivity|by left]. }
  assert (Hne : UserInfoKey (KeySet := sample_keys) 42
                <> CurrentLiveKey (KeySet := sample_keys) 42)
    by (intros H; vm_compute in H; discriminate H).
  exact (proj2 (proj2 (live_info_round_trip (K := sample_keys)
                         (D := sample_decoders) l (fresh 0) (Hour * 24 * 7)
                         Hh Hne eq_refl eq_refl))).
Defined.

(** * Deleting what was written *)

Lemma healthy_install (d : DB) (t : txn) (e : engine) :
  db e = Some d -> disk_fault e = None \/ persist d = false ->
  commit d t e = (ErrNil, install d t e) /\ healthy (install d t e).
Proof.
  intros Hd Hf. split.
  - unfold commit. destruct Hf as [-> | ->]; [done|].
    by destruct (disk_fault e).
  - eexists. split; [reflexivity|]. exact Hf.
Qed.

Lemma set_one_healthy (k v : string) (o : option SetOptions) (e : engine) :
  healthy e ->
  exists e' : engine,
    run (RWCoverTx (s <- TxSet k v o ;; Ret (snd s))) (idle e)
    = (ErrNil, idle e') /\
    healthy e' /\
    items_of e' = <[k := item_of (now e) v o]> (items_of e) /\
    now e' = now e.
Proof.
  intros Hh.
  destruct (write_scope_healthy (s <- TxSet k v o ;; Ret (snd s))
              (fun t m => <[k := item_of t v o]> m) e)
    as (e' & Hr & H1 & H2 & H3 & _); [|done|by exists e'].
  intros w t Hc Hw. exists true. cbn [run]. unfold tx_set.
  by rewrite Hc, Hw.
Qed.

(** One [tx.Delete] in a write scope of its own, on a healthy engine. *)
Lemma delete_one_healthy (k : string) (e : engine) :
  healthy e ->
  exists e' : engine,
    run (RWCoverTx (r <- TxDelete k ;; Ret (snd r))) (idle e)
    = (match live (now e) (items_of e) k with
       | Some _ => ErrNil
       | None => ErrNotFound
       end, idle e') /\
    healthy e' /\ now e' = now e /\
    forall k' : string,
      live (now e') (items_of e') k'
      = if bool_decide (k' = k) then None else live (now e) (items_of e) k'.
Proof.
  intros (d & Hd & Hf). rewrite (RWCoverTx_outermost _ e d Hd).
  unfold items_of. rewrite Hd. cbn [run]. unfold tx_delete.
  cbn [begin cur eng writable view now]. unfold live at 1.
  destruct (items d !! k) as [it|] eqn:L;
    [destruct (expired (now e) it) eqn:Ex|];
    cbn [fst snd]; unfold finish; cbn [cur set_cur writable is_nil eng].
  - eexists. split; [reflexivity|]. cbn.
    split; [by exists d|]. split; [done|]. intros k'. rewrite Hd.
    case_bool_decide as E; [|done]. subst k'. unfold live. by rewrite L, Ex.
  - destruct (healthy_install d
                {| writable := true; view := delete k (items d);
                   dirty := true |}
                (eng (begin true d e)) Hd Hf)
      as (Hc & Hh).
    rewrite Hc. eexists. split; [reflexivity|]. split; [exact Hh|].
    split; [done|]. intros k'. cbn. apply live_delete.
  - eexists. split; [reflexivity|]. cbn.
    split; [by exists d|]. split; [done|]. intros k'. rewrite Hd.
    case_bool_decide as E; [|done]. subst k'. unfold live. by rewrite L.
Qed.

Section Deletes.

Context {K : KeySet} {R : Records} {D : Decoders}.

(** X6.  On a healthy engine each single-record delete
    ([DeleteLiveInfo], [DeleteNewsInfo], [UnsetUidFirstTimestamp]) returns
    nil when its key is visible and [ErrNotFound] when it is not; either
    way no reader finds the key afterwards and every other key is as
    before. *)
Theorem single_deletes_remove_only_their_key (mid : Z) (e : engine) :
  healthy e ->
  let removes (key : string) (p : prog error) : Prop :=
    let r := run p (idle e) in
    r.1 = match visible (idle e) key with
          | Some _ => ErrNil
          | None => ErrNotFound
          end /\
    forall k : string,
      visible r.2 k = if bool_decide (k = key) then None
                      else visible (idle e) k in
  removes (CurrentLiveKey mid) (DeleteLiveInfo mid) /\
  removes (CurrentNewsKey mid) (DeleteNewsInfo mid) /\
  removes (UidFirstTimestamp mid) (UnsetUidFirstTimestamp mid).
Proof.
  intros Hh removes.
  assert (H : forall key : string,
             removes key (RWCoverTx (r <- TxDelete key ;; Ret (snd r)))).
  { intros key. subst removes. cbn zeta.
    destruct (delete_one_healthy key e Hh) as (e' & -> & Hh' & Hn & Hl).
    rewrite visible_idle. split; [done|]. intros k.
    cbn [snd]. rewrite !visible_idle. apply Hl. }
  split; [apply H|]. split; apply H.
Qed.

(** X7.  [DeleteLiveInfo] undoes the live record of [AddLiveInfo] and
    nothing else: on a healthy engine, with a decoder that inverts
    [ToString] on the user info and distinct keys, after [AddLiveInfo]
    then [DeleteLiveInfo] (which returns nil) [GetLiveInfo] returns
    [ErrNotFound] while [GetUserInfo] still returns the user info that
    [AddLiveInfo] wrote. *)
Theorem DeleteLiveInfo_keeps_user_info (l : LiveInfo) (e : engine) :
  let u := LiveInfo_UserInfo l in
  let mid := UserInfo_Mid u in
  healthy e ->
  UserInfoKey mid <> CurrentLiveKey mid ->
  UserInfo_Unmarshal (UserInfo_ToString u) = (u, ErrNil) ->
  let r1 := run (AddLiveInfo (Some l)) (idle e) in
  let r2 := run (DeleteLiveInfo mid) r1.2 in
  r2.1 = ErrNil /\
  (run (GetLiveInfo mid) r2.2).1 = (None, ErrNotFound) /\
  (run (GetUserInfo mid) r2.2).1 = (Some u, ErrNil).
Proof.
  intros u mid Hh Hne Hdu r1 r2.
  destruct (AddLiveInfo_healthy l e Hh) as (e1 & Hr1 & Hh1 & Hi1 & Hn1).
  subst r1 r2. rewrite Hr1. cbn [snd].
  destruct (delete_one_healthy (CurrentLiveKey mid) e1 Hh1)
    as (e2 & Hr2 & Hh2 & Hn2 & Hl2).
  change (run (DeleteLiveInfo mid) (idle e1))
    with (run (RWCoverTx (r <- TxDelete (CurrentLiveKey mid) ;; Ret (snd r)))
              (idle e1)).
  rewrite Hr2. cbn [fst snd].
  assert (Hlive : live (now e1) (items_of e1) (CurrentLiveKey mid)
                  = Some {| ival := LiveInfo_ToString l;
                            deadline := Some (now e + Hour * 24 * 7) |}).
  { rewrite Hi1, Hn1. unfold live_records. fold u mid.
    rewrite live_insert, bool_decide_eq_true_2 by done.
    unfold unexpired, expired. cbn. by rewrite seven_days_ahead. }
  rewrite Hlive. split; [done|]. split.
  - etrans; [exact (get_record_healthy LiveInfo_Unmarshal (CurrentLiveKey mid)
                      LiveInfo_zero e2 Hh2)|].
    by rewrite Hl2, bool_decide_eq_true_2.
  - etrans; [exact (get_record_healthy UserInfo_Unmarshal (UserInfoKey mid)
                      UserInfo_zero e2 Hh2)|].
    rewrite Hl2, bool_decide_eq_false_2 by done.
    rewrite Hi1, Hn1. unfold live_records. fold u mid.
    rewrite live_insert, bool_decide_eq_false_2 by done.
    rewrite live_insert, bool_decide_eq_true_2 by done.
    cbn. by rewrite Hdu.
Qed.

End Deletes.

Lemma single_deletes_remove_only_their_key_witness :
  (run (DeleteLiveInfo (K := sample_keys) 42) (idle (fresh 0))).1
  = ErrNotFound.
Proof.
  assert (Hh : healthy (fresh 0)).
  { exists {| persist := false; items := ∅ |}. split; [reflexivity|by left]. }
  exact (proj1 (proj1 (single_deletes_remove_only_their_key
                         (K := sample_keys) 42 (fresh 0) Hh))).
Defined.

Lemma DeleteLiveInfo_keeps_user_info_witness :
  let l : LiveInfo (Records := sample_records) :=
    ((42, "name"%string), "title"%string) in
  let r1 := run (AddLiveInfo (K := sample_keys) (R := sample_records) (Some l))
                (idle (fresh 0)) in
  let r2 := run (DeleteLiveInfo (K := sample_keys) 42) r1.2 in
  (run (GetUserInfo (K := sample_keys) (D := sample_decoders) 42) r2.2).1
  = (Some (42, "name"%string), ErrNil).
Proof.
  intros l r1 r2.
  assert (Hh : healthy (fresh 0)).
  { exists {| persist := false; items := ∅ |}. split; [reflexivity|by left]. }
  assert (Hne : UserInfoKey (KeySet := sample_keys) 42
                <> CurrentLiveKey (KeySet := sample_keys) 42)
    by (intros H; vm_compute in H; discriminate H).
  exact (proj2 (proj2 (DeleteLiveInfo_keeps_user_info (K := sample_keys)
                         (D := sample_decoders) l (fresh 0) Hh Hne eq_refl))).
Defined.

(** * Counters and marks *)

Lemma wrap64_small (z : Z) : - 2 ^ 63 <= z < 2 ^ 63 -> wrap64 z = z.
Proof. intros H. unfold wrap64. rewrite Z.mod_small; lia. Qed.

Lemma SeqNext_healthy (key : string) (e : engine) (n : Z) :
  healthy e ->
  counter_value e key = Some n ->
  - 2 ^ 63 <= n + 1 < 2 ^ 63 ->
  exists e' : engine,
    run (SeqNext key) (idle e) = ((n + 1, ErrNil), idle e') /\
    healthy e' /\
    items_of e'
    = <[key := {| ival := FormatInt (n + 1); deadline := None |}]>
        (items_of e) /\
    now e' = now e /\
    counter_value e' key = Some (n + 1).
Proof.
  intros (d & Hd & Hf) Hn Hrange. unfold counter_value, stored in Hn.
  rewrite Hd in Hn. unfold SeqNext, items_of. cbn [run idle cur eng].
  rewrite Hd. cbn [run]. rewrite tx_get_begin.
  assert (Hp : ParseInt
                 (if is_nil (match live (now e) (items d) key with
                             | Some it => (ival it, ErrNil)
                             | None => (""%string, ErrNotFound)
                             end).2
                  then (match live (now e) (items d) key with
                        | Some it => (ival it, ErrNil)
                        | None => (""%string, ErrNotFound)
                        end).1
                  else "0"%string) = Some n).
  { destruct (live (now e) (items d) key); [exact Hn|].
    by injection Hn as <-. }
  destruct (live (now e) (items d) key) as [it|];
    cbn [fst snd is_nil] in Hp |- *; rewrite Hp; cbn [run];
    rewrite (wrap64_small _ Hrange); unfold tx_set;
    cbn [begin cur eng writable view now set_cur fst snd];
    unfold finish; cbn [cur set_cur writable is_nil eng].
  all: match goal with
       | Hd' : db _ = Some ?d', Hf' : _ \/ _ |- context [commit ?d' ?t ?g] =>
           destruct (healthy_install d' t g Hd' Hf') as (Hc & Hh); rewrite Hc
       end.
  all: eexists; split; [reflexivity|]; split; [eassumption|];
    split; [reflexivity|]; split; [reflexivity|].
  all: unfold counter_value, stored, live; cbn;
    rewrite lookup_insert_eq; cbn; apply ParseInt_FormatInt.
Qed.

Section Counters.

Context {K : KeySet} {R : Records} {D : Decoders}.

Lemma IncNotLiveCount_healthy (uid : Z) (e : engine) (n : Z) :
  healthy e ->
  counter_value e (NotLiveKey uid) = Some n ->
  - 2 ^ 63 <= n + 1 < 2 ^ 63 ->
  exists e' : engine,
    run (IncNotLiveCount uid) (idle e) = (n + 1, idle e') /\
    healthy e' /\ counter_value e' (NotLiveKey uid) = Some (n + 1).
Proof.
  intros Hh Hn Hrange.
  destruct (SeqNext_healthy (NotLiveKey uid) e n Hh Hn Hrange)
    as (e' & Hr & Hh' & _ & _ & Hc).
  exists e'. split; [|done]. unfold IncNotLiveCount.
  change (run (r <- SeqNext (NotLiveKey uid) ;; _) (idle e))
    with (let '(a, w1) := run (SeqNext (NotLiveKey uid)) (idle e) in
          run (let '(result, err) := a in
               Ret (if negb (is_nil err) then 0 else result)) w1).
  by rewrite Hr.
Qed.

(** X8.  [IncNotLiveCount] counts up: on a healthy engine whose counter
    for the uid holds [c] (0 when the key is absent), [n] calls in a row
    return [c + 1], [c + 2], ..., [c + n], as long as these fit 64 bits. *)
Theorem IncNotLiveCount_counts_up (uid : Z) (n : nat) (e : engine) (c : Z) :
  healthy e ->
  counter_value e (NotLiveKey uid) = Some c ->
  - 2 ^ 63 <= c + 1 ->
  c + Z.of_nat n < 2 ^ 63 ->
  (repeat_run (IncNotLiveCount uid) n (idle e)).1
  = map (fun i : nat => c + Z.of_nat i) (seq 1 n).
Proof.
  revert e c. induction n as [|n IH]; intros e c Hh Hc Hlo Hhi; [done|].
  cbn [repeat_run].
  destruct (IncNotLiveCount_healthy uid e c Hh Hc ltac:(lia))
    as (e' & Hr & Hh' & Hc').
  rewrite Hr.
  specialize (IH e' (c + 1) Hh' Hc' ltac:(lia) ltac:(lia)).
  destruct (repeat_run (IncNotLiveCount uid) n (idle e')) as [l w2].
  cbn [fst] in IH |- *. rewrite IH. cbn [seq map]. f_equal; try lia.
  rewrite <- (seq_shift n 1), map_map. apply map_ext. intros i. lia.
Qed.

End Counters.

Lemma IncNotLiveCount_counts_up_witness :
  (repeat_run (IncNotLiveCount (K := sample_keys) 42) 3 (idle (fresh 0))).1
  = [1; 2; 3].
Proof.
  assert (Hh : healthy (fresh 0)).
  { exists {| persist := false; items := ∅ |}. split; [reflexivity|by left]. }
  exact (IncNotLiveCount_counts_up (K := sample_keys) 42 3 (fresh 0) 0 Hh
           eq_refl ltac:(lia) ltac:(lia)).
Defined.

Lemma live_without (t : Z) (ks : list string) (m : store) (k : string) :
  live t (without ks m) k
  = if bool_decide (k ∈ ks) then None else live t m k.
Proof.
  unfold live. rewrite lookup_without. by destruct (bool_decide (k ∈ ks)).
Qed.

Section Marks.

Context {K : KeySet} {R : Records} {D : Decoders}.

Lemma ClearByMid_healthy (mid : Z) (e : engine) :
  healthy e ->
  exists e' : engine,
    run (ClearByMid mid) (idle e) = (ErrNil, idle e') /\
    healthy e' /\ items_of e' = without (cleared mid) (items_of e) /\
    now e' = now e.
Proof.
  intros (d & Hd & Hf).
  destruct (ClearByMid_outermost mid e d Hd) as (dirt & ->).
  unfold finish. cbn [cur set_cur writable is_nil eng].
  match goal with
  | |- context [commit d ?t ?g] =>
      destruct (healthy_install d t g Hd Hf) as (Hc & Hh); rewrite Hc
  end.
  eexists. split; [reflexivity|]. split; [exact Hh|].
  unfold items_of. cbn -[without cleared]. by rewrite Hd.
Qed.

Lemma CheckDynamicId_healthy (dynamic : Z) (e : engine) :
  healthy e ->
  (run (CheckDynamicId dynamic) (idle e)).1
  = bool_decide (live (now e) (items_of e) (DynamicIdKey dynamic) = None).
Proof.
  intros (d & Hd & _). unfold CheckDynamicId, items_of.
  cbn [run idle cur eng]. rewrite Hd. cbn [run]. rewrite tx_get_begin.
  by destruct (live (now e) (items d) (DynamicIdKey dynamic)).
Qed.

Lemma GetUidFirstTimestamp_healthy (uid : Z) (e : engine) :
  healthy e ->
  (run (GetUidFirstTimestamp uid) (idle e)).1
  = match live (now e) (items_of e) (UidFirstTimestamp uid) with
    | Some it =>
        (if is_nil (strconv_ParseInt (ival it)).2
         then (strconv_ParseInt (ival it)).1 else 0,
         (strconv_ParseInt (ival it)).2)
    | None => (0, ErrNotFound)
    end.
Proof.
  intros (d & Hd & _). unfold GetUidFirstTimestamp, items_of.
  cbn [run idle cur eng]. rewrite Hd. cbn [run]. rewrite tx_get_begin.
  destruct (live (now e) (items d) (UidFirstTimestamp uid)) as [it|];
    cbn [fst snd is_nil negb run]; [|done].
  destruct (strconv_ParseInt (ival it)) as [ts err]. by destruct err.
Qed.

(** X9.  After [ClearByMid] on a healthy engine, which returns nil, the
    producer's user info, live info and news info read as [ErrNotFound],
    its first timestamp reads as 0 with [ErrNotFound], and its not-live
    count starts again at 1.  What is stored under a key that is not one
    of the five it deletes reads as before: the producer's user stat and
    the dynamic-id marks stay. *)
Theorem ClearByMid_clears (mid : Z) (e : engine) :
  healthy e ->
  let r := run (ClearByMid mid) (idle e) in
  r.1 = ErrNil /\
  (run (GetUserInfo mid) r.2).1 = (None, ErrNotFound) /\
  (run (GetLiveInfo mid) r.2).1 = (None, ErrNotFound) /\
  (run (GetNewsInfo mid) r.2).1 = (None, ErrNotFound) /\
  (run (GetUidFirstTimestamp mid) r.2).1 = (0, ErrNotFound) /\
  (run (IncNotLiveCount mid) r.2).1 = 1 /\
  (UserStatKey mid ∉ cleared mid ->
   (run (GetUserStat mid) r.2).1 = (run (GetUserStat mid) (idle e)).1) /\
  (forall id : Z,
      DynamicIdKey id ∉ cleared mid ->
      (run (CheckDynamicId id) r.2).1 = (run (CheckDynamicId id) (idle e)).1).
Proof.
  intros Hh r.
  destruct (ClearByMid_healthy mid e Hh) as (e' & Hr & Hh' & Hi & Hn).
  subst r. rewrite Hr. cbn [fst snd].
  assert (Hin : forall k : string,
             k ∈ cleared mid -> live (now e') (items_of e') k = None).
  { intros k Hk. by rewrite Hi, live_without, bool_decide_eq_true_2. }
  assert (Hout : forall k : string,
             k ∉ cleared mid ->
             live (now e') (items_of e') k = live (now e) (items_of e) k).
  { intros k Hk. by rewrite Hi, Hn, live_without, bool_decide_eq_false_2. }
  split; [done|]. split; [|split; [|split; [|split; [|split; [|split]]]]].
  - etrans; [exact (get_record_healthy UserInfo_Unmarshal (UserInfoKey mid)
                      UserInfo_zero e' Hh')|].
    rewrite Hin; [done|]. unfold cleared.
    repeat first [apply list_elem_of_here | apply list_elem_of_further].
  - etrans; [exact (get_record_healthy LiveInfo_Unmarshal (CurrentLiveKey mid)
                      LiveInfo_zero e' Hh')|].
    rewrite Hin; [done|]. unfold cleared.
    repeat first [apply list_elem_of_here | apply list_elem_of_further].
  - etrans; [exact (get_record_healthy NewsInfo_Unmarshal (CurrentNewsKey mid)
                      NewsInfo_zero e' Hh')|].
    rewrite Hin; [done|]. unfold cleared.
    repeat first [apply list_elem_of_here | apply list_elem_of_further].
  - rewrite (GetUidFirstTimestamp_healthy mid e' Hh').
    rewrite Hin; [done|]. unfold cleared.
    repeat first [apply list_elem_of_here | apply list_elem_of_further].
  - destruct (IncNotLiveCount_healthy mid e' 0 Hh') as (e2 & -> & _);
      [|lia|done].
    unfold counter_value, stored. destruct Hh' as (d' & Hd' & _).
    rewrite Hd'. specialize (Hin (NotLiveKey mid)). unfold items_of in Hin.
    rewrite Hd' in Hin. rewrite Hin; [done|]. unfold cleared.
    repeat first [apply list_elem_of_here | apply list_elem_of_further].
  - intros Hk.
    etrans; [exact (get_record_healthy UserStat_Unmarshal (UserStatKey mid)
                      UserStat_zero e' Hh')|].
    symmetry.
    etrans; [exact (get_record_healthy UserStat_Unmarshal (UserStatKey mid)
                      UserStat_zero e Hh)|].
    by rewrite Hout.
  - intros id Hk.
    rewrite (CheckDynamicId_healthy id e' Hh'), (CheckDynamicId_healthy id e Hh).
    by rewrite Hout.
Qed.

End Marks.

Lemma ClearByMid_clears_witness :
  let r := run (ClearByMid (K := sample_keys) 42) (idle (fresh 0)) in
  (run (IncNotLiveCount (K := sample_keys) 42) r.2).1 = 1.
Proof.
  intros r.
  assert (Hh : healthy (fresh 0)).
  { exists {| persist := false; items := ∅ |}. split; [reflexivity|by left]. }
  destruct (ClearByMid_clears (K := sample_keys) (D := sample_decoders) 42
              (fresh 0) Hh) as (_ & _ & _ & _ & _ & H & _).
  exact H.
Defined.

(** * Marking a dynamic id *)

Lemma Cover_nested {A : Type} (wr : bool) (a0 : A) (cb : prog (A * error))
    (w : world) (t : txn) :
  cur w = Some t -> (wr = true -> writable t = true) ->
  run (Cover wr a0 cb) w = run cb w.
Proof.
  intros Hc Hw. cbn [run]. rewrite Hc.
  destruct wr; [|done]. by rewrite Hw.
Qed.

Section MarkSeen.

Context {K : KeySet}.

Lemma MarkDynamicId_callback (dynamic : Z) :
  forall (w : world) (t : txn),
    cur w = Some t -> writable t = true ->
    exists dirt : bool,
      run (r <- TxSet (DynamicIdKey dynamic) ""%string
                 (ExpireOption (Hour * 120)) ;;
           let '(_, replaced, err) := r in Ret (replaced, err)) w
      = (((fun (now : Z) (m : store) =>
             bool_decide (is_Some (live now m (DynamicIdKey dynamic))))
            (now (eng w)) (view t), ErrNil),
         set_cur w
           {| writable := true;
              view := (fun (now : Z) (m : store) =>
                         <[DynamicIdKey dynamic :=
                             {| ival := ""%string;
                                deadline := Some (now + Hour * 120) |}]> m)
                        (now (eng w)) (view t);
              dirty := dirt |}).
Proof.
  intros w t Hc Hw. exists true. cbn [run]. unfold tx_set.
  by rewrite Hc, Hw.
Qed.

Lemma CheckDynamicId_initialised (dynamic : Z) (e : engine) (d : DB) :
  db e = Some d ->
  (run (CheckDynamicId dynamic) (idle e)).1
  = bool_decide (live (now e) (items d) (DynamicIdKey dynamic) = None).
Proof.
  intros Hd. unfold CheckDynamicId. cbn [run idle cur eng]. rewrite Hd.
  cbn [run]. rewrite tx_get_begin.
  by destruct (live (now e) (items d) (DynamicIdKey dynamic)).
Qed.

(** X10.  [MarkDynamicId] on a healthy engine returns nil and reports
    whether a mark was already visible; from then on [CheckDynamicId] of
    that id returns false until 120 hours have passed and true again
    afterwards, and the answer for an id with another key is what it
    would have been without the mark. *)
Theorem MarkDynamicId_marks_for_120_hours (dynamic : Z) (e : engine) (t : Z) :
  healthy e ->
  let r := run (MarkDynamicId dynamic) (idle e) in
  let later := idle (at_time t (eng r.2)) in
  r.1 = (bool_decide (is_Some (visible (idle e) (DynamicIdKey dynamic))),
         ErrNil) /\
  (run (CheckDynamicId dynamic) later).1
  = bool_decide (now e + Hour * 120 <= t) /\
  (forall other : Z,
      DynamicIdKey other <> DynamicIdKey dynamic ->
      (run (CheckDynamicId other) later).1
      = (run (CheckDynamicId other) (idle (at_time t e))).1).
Proof.
  intros Hh r later.
  destruct (write_cover_healthy _ false _ _ e (MarkDynamicId_callback dynamic)
              Hh) as (e' & Hr & Hh' & Hi & Hn & _).
  change (run (Cover true false _) (idle e))
    with (run (MarkDynamicId dynamic) (idle e)) in Hr.
  subst r later. rewrite Hr. cbn [fst snd eng idle].
  destruct (healthy_at_time t e' Hh') as (Hht & Hit).
  destruct (healthy_at_time t e Hh) as (Hht0 & Hit0).
  split; [by rewrite visible_idle|]. split.
  - rewrite (CheckDynamicId_healthy dynamic _ Hht), Hit, Hi.
    cbn [at_time now].
    rewrite live_insert,
      (bool_decide_eq_true_2 (DynamicIdKey dynamic = DynamicIdKey dynamic))
      by done.
    unfold unexpired, expired. cbn.
    destruct (Z.leb_spec (now e + Hour * 120) t);
      repeat case_bool_decide; try done; lia.
  - intros other Hne.
    rewrite (CheckDynamicId_healthy other _ Hht),
      (CheckDynamicId_healthy other _ Hht0), Hit, Hit0, Hi.
    cbn [at_time now].
    by rewrite live_insert,
      (bool_decide_eq_false_2 (DynamicIdKey other = DynamicIdKey dynamic)).
Qed.

(** X11.  [MarkDynamicId] returns the error of the cover call, not that of
    its callback: on a durable engine whose disk refuses the write the
    callback's [tx.Set] succeeds, yet the call returns the disk's error
    and nothing is marked, so a later [CheckDynamicId] answers as
    before. *)
Theorem MarkDynamicId_reports_commit_error (dynamic : Z) (e : engine)
    (d : DB) (msg : string) :
  db e = Some d -> persist d = true -> disk_fault e = Some msg ->
  let r := run (MarkDynamicId dynamic) (idle e) in
  r.1.2 = ErrNew msg /\
  r.1.1 = bool_decide (is_Some (visible (idle e) (DynamicIdKey dynamic))) /\
  db (eng r.2) = db e /\ disk (eng r.2) = disk e /\
  (run (CheckDynamicId dynamic) r.2).1
  = (run (CheckDynamicId dynamic) (idle e)).1.
Proof.
  intros Hd Hp Hf r.
  assert (Hr : r = ((bool_decide
                       (is_Some (live (now e) (items d)
                                   (DynamicIdKey dynamic))),
                     ErrNew msg),
                    idle (discard (eng (begin true d e))))).
  { subst r. unfold MarkDynamicId. cbn [run idle cur eng]. rewrite Hd.
    cbn [run]. unfold tx_set.
    cbn [begin cur eng writable view now set_cur run]. unfold finish, commit.
    cbn [cur set_cur writable is_nil eng begin disk_fault dirty].
    by rewrite Hf, Hp. }
  rewrite Hr. cbn [fst snd].
  split; [done|].
  split; [rewrite visible_idle; unfold items_of; by rewrite Hd|].
  split; [done|]. split; [done|].
  by rewrite (CheckDynamicId_initialised dynamic e d Hd),
    (CheckDynamicId_initialised dynamic (discard (eng (begin true d e))) d Hd).
Qed.

(** X12.  Within a write scope of the caller [MarkDynamicId] succeeds
    without committing anything, and a [CheckDynamicId] on the same chain
    already answers false: it reads the transaction's view. *)
Theorem mark_is_seen_within_write_scope (dynamic : Z) (w : world) (t : txn) :
  cur w = Some t -> writable t = true ->
  let r := run (MarkDynamicId dynamic) w in
  r.1.2 = ErrNil /\
  eng r.2 = eng w /\
  run (CheckDynamicId dynamic) r.2 = (false, r.2).
Proof.
  intros Hc Hw r. subst r. unfold MarkDynamicId.
  rewrite (Cover_nested true _ _ w t Hc (fun _ => Hw)).
  destruct (MarkDynamicId_callback dynamic w t Hc Hw) as (dirt & ->).
  cbn [fst snd]. split; [done|]. split; [done|].
  unfold CheckDynamicId. cbn [run set_cur cur andb]. unfold tx_get.
  cbn [set_cur cur eng view].
  rewrite live_insert, bool_decide_eq_true_2 by done.
  unfold unexpired, expired. cbn [deadline].
  assert (E : (now (eng w) + Hour * 120 <=? now (eng w)) = false).
  { apply Z.leb_gt. unfold Hour, Minute, Second, Nanosecond. lia. }
  rewrite E. done.
Qed.

End MarkSeen.

Lemma MarkDynamicId_marks_for_120_hours_witness :
  let r := run (MarkDynamicId (K := sample_keys) 7) (idle (fresh 0)) in
  (run (CheckDynamicId (K := sample_keys) 7)
       (idle (at_time (Hour * 119) (eng r.2)))).1 = false /\
  (run (CheckDynamicId (K := sample_keys) 7)
       (idle (at_time (Hour * 120) (eng r.2)))).1 = true.
Proof.
  intros r.
  assert (Hh : healthy (fresh 0)).
  { exists {| persist := false; items := ∅ |}. split; [reflexivity|by left]. }
  split.
  - exact (proj1 (proj2 (MarkDynamicId_marks_for_120_hours (K := sample_keys)
                           7 (fresh 0) (Hour * 119) Hh))).
  - exact (proj1 (proj2 (MarkDynamicId_marks_for_120_hours (K := sample_keys)
                           7 (fresh 0) (Hour * 120) Hh))).
Defined.

Lemma MarkDynamicId_reports_commit_error_witness :
  (run (MarkDynamicId (K := sample_keys) 7) (idle (full_disk 0 ∅))).1
  = (false, ErrNew "no space left on device").
Proof.
  destruct (MarkDynamicId_reports_commit_error (K := sample_keys) 7
              (full_disk 0 ∅) {| persist := true; items := ∅ |}
              "no space left on device" eq_refl eq_refl eq_refl)
    as (H1 & H2 & _).
  destruct (run (MarkDynamicId (K := sample_keys) 7) (idle (full_disk 0 ∅)))
    as [[b err] w']. cbn in H1, H2. by rewrite H1, H2.
Defined.

Lemma mark_is_seen_within_write_scope_witness :
  let w := begin true {| persist := false; items := ∅ |} (fresh 0) in
  let r := run (MarkDynamicId (K := sample_keys) 7) w in
  run (CheckDynamicId (K := sample_keys) 7) r.2 = (false, r.2).
Proof.
  intros w r.
  exact (proj2 (proj2 (mark_is_seen_within_write_scope (K := sample_keys) 7 w
                         _ eq_refl eq_refl))).
Defined.

(** * First timestamps *)

Lemma string_of_uint_head (d : Decimal.uint) :
  d <> Decimal.Nil ->
  exists (c : ascii) (rest : string),
    NilZero.string_of_uint d = String c rest /\
    Ascii.eqb c "-"%char = false /\ Ascii.eqb c "+"%char = false.
Proof.
  intros Hd. destruct d; [done|..]; eexists _, _; repeat split.
Qed.

Lemma strconv_ParseInt_FormatInt (z : Z) :
  - 2 ^ 63 <= z < 2 ^ 63 -> strconv_ParseInt (FormatInt z) = (z, ErrNil).
Proof.
  intros Hz. unfold FormatInt. destruct z as [|p|p]; [done|..];
    cbn [Z.to_int NilZero.string_of_int].
  - pose proof (DecimalPos.Unsigned.to_uint_nonnil p) as Hn.
    destruct (string_of_uint_head _ Hn) as (c & rest & Hs & Hm & Hp).
    unfold strconv_ParseInt. rewrite Hs, Hm, Hp. cbn [orb negb andb].
    rewrite <- Hs, (NilZero.usu _ Hn).
    unfold Z.of_uint. rewrite DecimalPos.Unsigned.of_to. cbn [Z.of_N].
    destruct (Z.leb_spec (2 ^ 63) (Z.pos p)); [lia|done].
  - pose proof (DecimalPos.Unsigned.to_uint_nonnil p) as Hn.
    unfold strconv_ParseInt. cbn [Ascii.eqb Bool.eqb orb negb andb].
    rewrite (NilZero.usu _ Hn).
    unfold Z.of_uint. rewrite DecimalPos.Unsigned.of_to. cbn [Z.of_N].
    destruct (Z.ltb_spec (2 ^ 63) (Z.pos p)); [lia|done].
Qed.

Lemma SetIfNotExist_healthy (k v : string) (o : option SetOptions)
    (e : engine) :
  healthy e ->
  exists e' : engine,
    run (SetIfNotExist k v o) (idle e) = (ErrNil, idle e') /\
    healthy e' /\ now e' = now e /\
    items_of e'
    = match live (now e) (items_of e) k with
      | Some _ => items_of e
      | None => <[k := item_of (now e) v o]> (items_of e)
      end.
Proof.
  intros Hh.
  destruct (write_scope_healthy
              (g <- TxGet k ;;
               match snd g with
               | ErrNotFound => s <- TxSet k v o ;; Ret (snd s)
               | err => Ret err
               end)
              (fun t m => match live t m k with
                          | Some _ => m
                          | None => <[k := item_of t v o]> m
                          end) e)
    as (e' & Hr & H1 & H2 & H3 & _); [|done|by exists e'].
  intros w t Hc Hw. cbn [run]. unfold tx_get. rewrite Hc.
  destruct (live (now (eng w)) (view t) k); cbn [snd run].
  - exists (dirty t). destruct w as [g c], t as [wr vw dt].
    cbn in *. by subst.
  - exists true. unfold tx_set. by rewrite Hc, Hw.
Qed.

Section FirstTimestamp.

Context {K : KeySet}.

(** X13.  [GetUidFirstTimestamp] never returns a timestamp together with
    an error: the timestamp is 0 whenever the error is not nil.  It
    returns [ErrNotFound] when no item is visible under the key, and the
    integer when the stored text is the decimal form of a 64-bit
    integer.  It changes nothing for any reader. *)
Theorem GetUidFirstTimestamp_reads (uid : Z) (w : world) :
  let r := run (GetUidFirstTimestamp uid) w in
  (r.1.2 <> ErrNil -> r.1.1 = 0) /\
  (forall k : string, visible r.2 k = visible w k) /\
  (visible w (UidFirstTimestamp uid) = None ->
   (cur w = None -> db (eng w) <> None) -> r.1 = (0, ErrNotFound)) /\
  (forall (it : item) (ts : Z),
      visible w (UidFirstTimestamp uid) = Some it ->
      ival it = FormatInt ts -> - 2 ^ 63 <= ts < 2 ^ 63 ->
      r.1 = (ts, ErrNil)).
Proof.
  intros r.
  assert (Hr : r = (let found (o : option item) : Z * error :=
                      match o with
                      | Some it =>
                          (if is_nil (strconv_ParseInt (ival it)).2
                           then (strconv_ParseInt (ival it)).1 else 0,
                           (strconv_ParseInt (ival it)).2)
                      | None => (0, ErrNotFound)
                      end in
                    match cur w with
                    | Some t =>
                        (found (live (now (eng w)) (view t)
                                  (UidFirstTimestamp uid)), w)
                    | None =>
                        match db (eng w) with
                        | Some d =>
                            (found (live (now (eng w)) (items d)
                                      (UidFirstTimestamp uid)),
                             idle (eng (begin false d (eng w))))
                        | None => ((0, ErrNotInitialized), w)
                        end
                    end)).
  { subst r. unfold GetUidFirstTimestamp. cbn [run].
    destruct (cur w) as [t|] eqn:Hc.
    - cbn [andb run]. unfold tx_get. rewrite Hc.
      destruct (live (now (eng w)) (view t) (UidFirstTimestamp uid))
        as [it|]; cbn [fst snd is_nil negb run]; [|done].
      destruct (strconv_ParseInt (ival it)) as [ts err]. by destruct err.
    - destruct (db (eng w)) as [d|]; [|done].
      cbn [run]. rewrite tx_get_begin.
      destruct (live (now (eng w)) (items d) (UidFirstTimestamp uid))
        as [it|]; cbn [fst snd is_nil negb run]; [|done].
      destruct (strconv_ParseInt (ival it)) as [ts err]. by destruct err. }
  rewrite Hr. clear Hr r. cbv zeta. unfold visible, stored.
  destruct (cur w) as [t|] eqn:Hc; [|destruct (db (eng w)) as [d|] eqn:Hd];
    cbn [fst snd idle cur eng begin db now]; rewrite ?Hc, ?Hd.
  - destruct (live (now (eng w)) (view t) (UidFirstTimestamp uid)) as [it|].
    + split; [by destruct (strconv_ParseInt (ival it)) as [ts []]|].
      split; [done|]. split; [done|].
      intros it' ts [= <-] -> Hts.
      by rewrite (strconv_ParseInt_FormatInt ts Hts).
    + split; [done|]. split; [done|]. split; done.
  - destruct (live (now (eng w)) (items d) (UidFirstTimestamp uid)) as [it|].
    + split; [by destruct (strconv_ParseInt (ival it)) as [ts []]|].
      split; [done|]. split; [done|].
      intros it' ts [= <-] -> Hts.
      by rewrite (strconv_ParseInt_FormatInt ts Hts).
    + split; [done|]. split; [done|]. split; done.
  - split; [done|]. split; [done|]. split; [by intros _ H; destruct H|done].
Qed.

(** X14.  The first timestamp is kept: on a healthy engine that holds no
    first timestamp for the uid, [SetUidFirstTimestampIfNotExist] with a
    64-bit [ts] makes [GetUidFirstTimestamp] return [ts]; a second call
    with another value does not change what is read; after
    [UnsetUidFirstTimestamp], which returns nil, the timestamp reads as 0
    with [ErrNotFound] and the next [SetUidFirstTimestampIfNotExist] is
    the one that counts. *)
Theorem first_timestamp_is_kept (uid ts ts' : Z) (e : engine) :
  healthy e ->
  visible (idle e) (UidFirstTimestamp uid) = None ->
  - 2 ^ 63 <= ts < 2 ^ 63 -> - 2 ^ 63 <= ts' < 2 ^ 63 ->
  let r1 := run (SetUidFirstTimestampIfNotExist uid ts) (idle e) in
  let r2 := run (SetUidFirstTimestampIfNotExist uid ts') r1.2 in
  let r3 := run (UnsetUidFirstTimestamp uid) r2.2 in
  let r4 := run (SetUidFirstTimestampIfNotExist uid ts') r3.2 in
  r1.1 = ErrNil /\ (run (GetUidFirstTimestamp uid) r1.2).1 = (ts, ErrNil) /\
  (run (GetUidFirstTimestamp uid) r2.2).1 = (ts, ErrNil) /\
  r3.1 = ErrNil /\
  (run (GetUidFirstTimestamp uid) r3.2).1 = (0, ErrNotFound) /\
  r4.1 = ErrNil /\ (run (GetUidFirstTimestamp uid) r4.2).1 = (ts', ErrNil).
Proof.
  intros Hh Habs Hts Hts' r1 r2 r3 r4.
  set (key := UidFirstTimestamp uid) in *.
  rewrite visible_idle in Habs.
  assert (Hget : forall (g : engine) (v : Z),
             healthy g -> - 2 ^ 63 <= v < 2 ^ 63 ->
             live (now g) (items_of g) key
             = Some {| ival := FormatInt v; deadline := None |} ->
             (run (GetUidFirstTimestamp uid) (idle g)).1 = (v, ErrNil)).
  { intros g v Hg Hv Hl.
    destruct (GetUidFirstTimestamp_reads uid (idle g)) as (_ & _ & _ & H).
    apply (H {| ival := FormatInt v; deadline := None |} v);
      [by rewrite visible_idle|done|done]. }
  destruct (SetIfNotExist_healthy key (FormatInt ts) None e Hh)
    as (e1 & Hr1 & Hh1 & Hn1 & Hi1).
  rewrite Habs in Hi1.
  assert (Hl1 : live (now e1) (items_of e1) key
                = Some {| ival := FormatInt ts; deadline := None |}).
  { rewrite Hi1, live_insert, bool_decide_eq_true_2 by done. done. }
  destruct (SetIfNotExist_healthy key (FormatInt ts') None e1 Hh1)
    as (e2 & Hr2 & Hh2 & Hn2 & Hi2).
  rewrite Hl1 in Hi2.
  assert (Hl2 : live (now e2) (items_of e2) key
                = Some {| ival := FormatInt ts; deadline := None |})
    by (by rewrite Hi2, Hn2).
  destruct (delete_one_healthy key e2 Hh2) as (e3 & Hr3 & Hh3 & Hn3 & Hl3).
  rewrite Hl2 in Hr3.
  assert (Hl3' : live (now e3) (items_of e3) key = None)
    by (by rewrite Hl3, bool_decide_eq_true_2).
  destruct (SetIfNotExist_healthy key (FormatInt ts') None e3 Hh3)
    as (e4 & Hr4 & Hh4 & Hn4 & Hi4).
  rewrite Hl3' in Hi4.
  assert (Hl4 : live (now e4) (items_of e4) key
                = Some {| ival := FormatInt ts'; deadline := None |}).
  { rewrite Hi4, live_insert, bool_decide_eq_true_2 by done. done. }
  assert (E1 : r1 = (ErrNil, idle e1)) by exact Hr1.
  assert (E2 : r2 = (ErrNil, idle e2)) by (subst r2; by rewrite E1).
  assert (E3 : r3 = (ErrNil, idle e3)) by (subst r3; by rewrite E2).
  assert (E4 : r4 = (ErrNil, idle e4)) by (subst r4; by rewrite E3).
  rewrite E1, E2, E3, E4. cbn [fst snd].
  split; [done|]. split; [by apply Hget|].
  split; [by apply Hget|]. split; [done|]. split; [|split; [done|]].
  - destruct (GetUidFirstTimestamp_reads uid (idle e3)) as (_ & _ & H & _).
    apply H; [by rewrite visible_idle|]. intros _.
    destruct Hh3 as (d3 & Hd3 & _). cbn. by rewrite Hd3.
  - by apply Hget.
Qed.

End FirstTimestamp.

Lemma GetUidFirstTimestamp_reads_witness :
  (run (GetUidFirstTimestamp (K := sample_keys) 42) (idle (fresh 0))).1
  = (0, ErrNotFound).
Proof.
  destruct (GetUidFirstTimestamp_reads (K := sample_keys) 42 (idle (fresh 0)))
    as (_ & _ & H & _).
  apply H; [reflexivity|]. intros _. discriminate.
Defined.

Lemma first_timestamp_is_kept_witness :
  let r1 := run (SetUidFirstTimestampIfNotExist (K := sample_keys) 42 1600)
                (idle (fresh 0)) in
  let r2 := run (SetUidFirstTimestampIfNotExist (K := sample_keys) 42 1700)
                r1.2 in
  (run (GetUidFirstTimestamp (K := sample_keys) 42) r2.2).1 = (1600, ErrNil).
Proof.
  intros r1 r2.
  assert (Hh : healthy (fresh 0)).
  { exists {| persist := false; items := ∅ |}. split; [reflexivity|by left]. }
  destruct (first_timestamp_is_kept (K := sample_keys) 42 1600 1700 (fresh 0)
              Hh eq_refl ltac:(lia) ltac:(lia)) as (_ & _ & H & _).
  exact H.
Defined.

(** * Origin marks *)

Section OriginMarks.

Context {O : OriginKeys}.

Lemma fifteen_minutes : ExpireOption (Minute * 15)
                        = Some {| Expires := true; TTL := Minute * 15 |}.
Proof. done. Qed.

(** X15.  An origin mark lasts fifteen minutes from the call that set it:
    on a healthy engine without a visible mark under the key,
    [SetGroupVideoOriginMarkIfNotExist] (and likewise
    [SetGroupOriginMarkIfNotExist]) returns nil and stores an empty mark
    that expires fifteen minutes from now; another call at a time [t]
    before that leaves the expiry where it was, and a call at or after it
    stores a mark that expires fifteen minutes after [t]. *)
Theorem origin_mark_lasts_15_minutes (groupCode : Z) (id : string)
    (e : engine) (t : Z) :
  healthy e ->
  let marks (key : string) (p : prog error) : Prop :=
    visible (idle e) key = None ->
    let r1 := run p (idle e) in
    let r2 := run p (idle (at_time t (eng r1.2))) in
    r1.1 = ErrNil /\
    visible r1.2 key
    = Some {| ival := ""%string; deadline := Some (now e + Minute * 15) |} /\
    visible r2.2 key
    = Some {| ival := ""%string;
              deadline := Some (if t <? now e + Minute * 15
                                then now e + Minute * 15
                                else t + Minute * 15) |} in
  marks (BilibiliVideoOriginMarkKey groupCode id)
        (SetGroupVideoOriginMarkIfNotExist groupCode id) /\
  marks (BilibiliOriginMarkKey groupCode id)
        (SetGroupOriginMarkIfNotExist groupCode id).
Proof.
  intros Hh marks.
  assert (Hlater : forall z : Z, (z + Minute * 15 <=? z) = false).
  { intros z. apply Z.leb_gt. unfold Minute, Second, Nanosecond. lia. }
  assert (H : forall key : string,
             marks key (SetIfNotExist key ""%string (ExpireOption (Minute * 15)))).
  { intros key. subst marks. cbn zeta. intros Habs.
    rewrite visible_idle in Habs.
    destruct (SetIfNotExist_healthy key "" (ExpireOption (Minute * 15)) e Hh)
      as (e1 & -> & Hh1 & Hn1 & Hi1).
    rewrite Habs in Hi1. cbn [fst snd eng idle].
    destruct (healthy_at_time t e1 Hh1) as (Hht & Hit).
    destruct (SetIfNotExist_healthy key "" (ExpireOption (Minute * 15))
                (at_time t e1) Hht) as (e2 & -> & Hh2 & Hn2 & Hi2).
    cbn [snd]. rewrite !visible_idle.
    split; [done|]. split.
    - rewrite Hi1, Hn1, live_insert, bool_decide_eq_true_2 by done.
      rewrite fifteen_minutes. unfold unexpired, expired.
      cbn [item_of deadline Expires TTL]. by rewrite Hlater.
    - rewrite Hi2, Hit, Hi1, Hn2, fifteen_minutes. cbn [at_time now].
      rewrite live_insert, bool_decide_eq_true_2 by done.
      unfold unexpired, expired. cbn [item_of deadline Expires TTL].
      destruct (Z.ltb_spec t (now e + Minute * 15)),
               (Z.leb_spec (now e + Minute * 15) t); try lia;
        rewrite live_insert, bool_decide_eq_true_2 by done;
        unfold unexpired, expired; cbn [item_of deadline Expires TTL].
      + destruct (Z.leb_spec (now e + Minute * 15) t); [lia|done].
      + by rewrite Hlater. }
  split; apply H.
Qed.

End OriginMarks.

Lemma origin_mark_lasts_15_minutes_witness :
  let p := SetGroupOriginMarkIfNotExist (O := sample_origin_keys) 100 "77" in
  let r1 := run p (idle (fresh 0)) in
  let r2 := run p (idle (at_time (Minute * 5) (eng r1.2))) in
  visible r2.2 "bilibiliOriginMark:100:77"
  = Some {| ival := ""%string; deadline := Some (Minute * 15) |}.
Proof.
  intros p r1 r2.
  assert (Hh : healthy (fresh 0)).
  { exists {| persist := false; items := ∅ |}. split; [reflexivity|by left]. }
  destruct (origin_mark_lasts_15_minutes (O := sample_origin_keys) 100 "77"
              (fresh 0) (Minute * 5) Hh) as (_ & H).
  destruct (H eq_refl) as (_ & _ & H2). exact H2.
Defined.

(** * Cookies *)

Section Cookies.

Context {K : KeySet} {R : Records} {D : Decoders}.



(** X17.  [SetCookieInfo] with a bundle that does not encode writes
    nothing and returns an error: the encoder's own on an initialised
    engine or within a write scope. *)
Theorem SetCookieInfo_marshal_error (username : string) (c : CookieInfo)
    (w : world) :
  (json_Marshal c).2 <> ErrNil ->
  let r := run (SetCookieInfo username (Some c)) w in
  r.1 <> ErrNil /\
  (forall k : string, visible r.2 k = visible w k) /\
  ((forall t : txn, cur w = Some t -> writable t = true) ->
   (cur w = None -> db (eng w) <> None) ->
   r.1 = (json_Marshal c).2).
Proof.
  intros Herr r. subst r. unfold SetCookieInfo.
  destruct (json_Marshal c) as [data err]. cbn [snd] in Herr.
  assert (Hn : negb (is_nil err) = true) by (by destruct err).
  rewrite Hn.
  destruct (cur w) as [t|] eqn:Hc; [destruct (writable t) eqn:Hw|].
  - rewrite (RWCoverTx_nested _ w t Hc Hw). cbn [run fst snd].
    split; [done|]. split; done.
  - rewrite (RWCoverTx_in_read_scope _ w t Hc Hw). cbn [fst snd].
    split; [done|]. split; [done|]. intros H. by rewrite (H t) in Hw.
  - destruct w as [e cu]. cbn in Hc. subst cu. fold (idle e).
    destruct (db e) as [d|] eqn:Hd.
    + rewrite (RWCoverTx_outermost _ e d Hd). cbn [run fst snd].
      rewrite (finish_write d err (begin true d e) _ eq_refl eq_refl).
      destruct err; [done|..]; cbn [is_nil fst snd];
        (split; [done|]); (split; [|done]); intros k;
        unfold visible, stored; cbn; by rewrite Hd.
    + rewrite (RWCoverTx_not_initialized _ e Hd). cbn [fst snd].
      split; [done|]. split; [done|]. intros _ H. cbn in H. by destruct H.
Qed.



End Cookies.


Lemma SetCookieInfo_marshal_error_witness :
  (run (SetCookieInfo (K := sample_keys) (R := unencodable_records)
          "bot" (Some [5])) (idle (fresh 0))).1
  = ErrNew "json: unsupported value".
Proof.
  destruct (SetCookieInfo_marshal_error (K := sample_keys)
              (R := unencodable_records) "bot" [5] (idle (fresh 0)))
    as (_ & _ & H); [discriminate|].
  apply H; [discriminate|]. intros _. discriminate.
Defined.


(** * The space-history request *)

(** X19.  [DynamicSrvSpaceHistory] returns a response exactly when it
    returns a nil error, and the error it returns is that of the first
    step that failed: when the parameters cannot be built the network is
    not asked, and when the request fails the body is not decoded.  The
    request is for the given host, from offset 0, without the top post. *)
Theorem DynamicSrvSpaceHistory_response_or_error {H : Http} (hostUid : Z) :
  let req := {| HostUid := hostUid; OffsetDynamicId := 0; NeedTop := 0 |} in
  let p := ToParams req in
  let g := requests_Get (BPath PathDynamicSrvSpaceHistory) p.1 in
  let j := Response_Json g.1 in
  let r := DynamicSrvSpaceHistory hostUid in
  (r.1 = None <-> r.2 <> ErrNil) /\
  (p.2 <> ErrNil -> r = (None, p.2)) /\
  (p.2 = ErrNil -> g.2 <> ErrNil -> r = (None, g.2)) /\
  (p.2 = ErrNil -> g.2 = ErrNil -> j.2 <> ErrNil -> r = (None, j.2)) /\
  (p.2 = ErrNil -> g.2 = ErrNil -> j.2 = ErrNil -> r = (Some j.1, ErrNil)).
Proof.
  intros req p g j r. subst r g j p. unfold DynamicSrvSpaceHistory.
  fold req. destruct (ToParams req) as [params e1]. cbn [fst snd].
  destruct (is_nil e1) eqn:N1; cbn [negb].
  - assert (e1 = ErrNil) as -> by (by destruct e1).
    destruct (requests_Get (BPath PathDynamicSrvSpaceHistory) params)
      as [resp e2]. cbn [fst snd].
    destruct (is_nil e2) eqn:N2; cbn [negb].
    + assert (e2 = ErrNil) as -> by (by destruct e2).
      destruct (Response_Json resp) as [body e3]. cbn [fst snd].
      destruct (is_nil e3) eqn:N3; cbn [negb fst snd].
      * assert (e3 = ErrNil) as -> by (by destruct e3).
        split; [split; [done|by intros []]|]. repeat split; done.
      * assert (e3 <> ErrNil) by (by intros ->).
        split; [done|]. repeat split; done.
    + assert (e2 <> ErrNil) by (by intros ->).
      split; [done|]. repeat split; done.
  - assert (e1 <> ErrNil) by (by intros ->).
    split; [done|]. repeat split; done.
Qed.

Lemma DynamicSrvSpaceHistory_response_or_error_witness :
  DynamicSrvSpaceHistory (H := sample_http) 7
  = (None, ErrNew "connection refused").
Proof.
  destruct (DynamicSrvSpaceHistory_response_or_error (H := sample_http) 7)
    as (_ & _ & Hget & _).
  apply Hget; [reflexivity|discriminate].
Defined.

(** * Keys of one family *)

(** X20.  Keys of one family do not collide on the identifier: two keys
    built by [NamedKey] from the same tag and one integer segment each
    are equal only if the integers are. *)
Theorem NamedKey_integer_injective (name : string) (ty ty' : int_type)
    (a b : Z) :
  NamedKey name [SegInt ty a] = NamedKey name [SegInt ty' b] -> a = b.
Proof.
  unfold NamedKey. cbn [map segment_text Join]. intros E.
  apply (inj (String.app name)) in E. apply (inj (String.app ":")) in E.
  assert (Hp : ParseInt (FormatInt a) = ParseInt (FormatInt b))
    by (by rewrite E).
  rewrite !ParseInt_FormatInt in Hp. by injection Hp.
Qed.

Lemma NamedKey_integer_injective_witness :
  NamedKey "UserInfo" [SegInt Int64 42] = NamedKey "UserInfo" [SegInt Int32 42]
  /\ 42 = 42.
Proof.
  split; [reflexivity|].
  exact (NamedKey_integer_injective "UserInfo" Int64 Int32 42 42 eq_refl).
Defined.
